(** * CDP support chatbot: retrieval and question classification

    A shallow embedding of [src/indexer.py] (class [DocumentIndexer]) and
    [src/chatbot.py] (class [CDPChatbot]), and the properties of the
    specification checked against it.

    Conventions of the embedding.
    - A Python [str] is a [string]; questions and documents are taken to be
      ASCII text, so [str.lower] maps [A-Z] to [a-z] and keeps every other
      character, and the length of a string is its number of characters.
    - A Python exception is a value of [exn]; a call that may raise returns a
      [result].
    - The index is reached by the chatbot only through [indexer.search]; the
      queries it issues are recorded in order, next to the outcome.
    - scikit-learn and numpy are outside the repository: the similarity of a
      query to a matrix row and [np.argsort] are parameters of the
      development. *)

From Stdlib Require Import Bool Arith List Lia ZArith QArith.
From Stdlib Require Import Ascii String DecimalString.
From Stdlib Require Import Sorted Permutation.
Import ListNotations.

Local Open Scope list_scope.
Local Open Scope string_scope.

(* ================================================================== *)
(** ** Python string operations *)

Module Str.

Definition code (c : ascii) : nat := nat_of_ascii c.

Definition between (lo hi : nat) (c : ascii) : bool :=
  (lo <=? code c)%nat && (code c <=? hi)%nat.

Definition is_upper (c : ascii) : bool := between 65 90 c.
Definition is_lower (c : ascii) : bool := between 97 122 c.
Definition is_digit (c : ascii) : bool := between 48 57 c.
Definition is_alpha (c : ascii) : bool := is_upper c || is_lower c.

(** [str.isspace] on ASCII: tab, line feed, vertical tab, form feed, carriage
    return, the four separators 28..31 and the space. *)
Definition is_space (c : ascii) : bool :=
  between 9 13 c || between 28 31 c || (code c =? 32)%nat.

(** A word character of [re]: [[a-zA-Z0-9_]]. *)
Definition is_word (c : ascii) : bool :=
  is_alpha c || is_digit c || (code c =? 95)%nat.

Definition lower_char (c : ascii) : ascii :=
  if is_upper c then ascii_of_nat (code c + 32) else c.

Definition upper_char (c : ascii) : ascii :=
  if is_lower c then ascii_of_nat (code c - 32) else c.

(** [s.lower()] *)
Fixpoint lower (s : string) : string :=
  match s with
  | EmptyString => EmptyString
  | String c s' => String (lower_char c) (lower s')
  end.

(** [sub in s] *)
Fixpoint str_in (sub s : string) : bool :=
  if String.prefix sub s then true
  else match s with
       | EmptyString => false
       | String _ s' => str_in sub s'
       end.

(** [s[n:]] for [0 <= n] *)
Fixpoint drop (n : nat) (s : string) : string :=
  match n, s with
  | O, _ => s
  | S n', String _ s' => drop n' s'
  | S _, EmptyString => EmptyString
  end.

(** [s[:n]] for [0 <= n] *)
Fixpoint take (n : nat) (s : string) : string :=
  match n, s with
  | O, _ => EmptyString
  | S n', String c s' => String c (take n' s')
  | S _, EmptyString => EmptyString
  end.

(** [s[-n:]] for [0 < n]: the last [n] characters, the whole string when it
    is shorter. *)
Definition last_chars (n : nat) (s : string) : string :=
  drop (String.length s - n) s.

(** [s[a:b]] for [0 <= a <= b] *)
Definition slice (a b : nat) (s : string) : string := take (b - a) (drop a s).

(** [s.find(sub)]: the lowest index of an occurrence. *)
Fixpoint find_at (i : nat) (sub s : string) : option nat :=
  if String.prefix sub s then Some i
  else match s with
       | EmptyString => None
       | String _ s' => find_at (S i) sub s'
       end.

Definition find (sub s : string) : option nat := find_at 0 sub s.

(** [s.rfind(sub)]: the highest index of an occurrence. *)
Fixpoint rfind_at (i : nat) (sub s : string) : option nat :=
  let later := match s with
               | EmptyString => None
               | String _ s' => rfind_at (S i) sub s'
               end in
  match later with
  | Some j => Some j
  | None => if String.prefix sub s then Some i else None
  end.

Definition rfind (sub s : string) : option nat := rfind_at 0 sub s.

(** [s.title()]: a letter that follows a letter is lower-cased, any other
    letter is upper-cased. *)
Fixpoint title_from (prev_cased : bool) (s : string) : string :=
  match s with
  | EmptyString => EmptyString
  | String c s' =>
      String (if is_alpha c
              then if prev_cased then lower_char c else upper_char c
              else c)
             (title_from (is_alpha c) s')
  end.

Definition title (s : string) : string := title_from false s.

(** [s.replace(old, new)] for a non-empty [old]: occurrences are replaced
    left to right and do not overlap; [skip] counts the characters of the
    occurrence being replaced that are still to be passed over.  With an
    empty [old] Python puts [new] before every character and at the end. *)
Fixpoint replace_from (skip : nat) (old new s : string) : string :=
  match s with
  | EmptyString => match old with EmptyString => new | _ => EmptyString end
  | String c s' =>
      match skip with
      | S k => replace_from k old new s'
      | O =>
          match old with
          | EmptyString => new ++ String c (replace_from 0 old new s')
          | String _ old' =>
              if String.prefix old s
              then new ++ replace_from (String.length old') old new s'
              else String c (replace_from 0 old new s')
          end
      end
  end.

Definition replace (old new s : string) : string := replace_from 0 old new s.

(** [s.split(sep)] for the one-character separator [sep]. *)
Fixpoint split_on (sep : ascii) (s : string) : list string :=
  match s with
  | EmptyString => [EmptyString]
  | String c s' =>
      if Ascii.eqb c sep then EmptyString :: split_on sep s'
      else match split_on sep s' with
           | w :: ws => String c w :: ws
           | [] => [String c EmptyString]
           end
  end.

(** [s.split()]: the maximal runs of characters that are not white space. *)
Fixpoint split_ws (s : string) : list string :=
  match s with
  | EmptyString => []
  | String c s' =>
      if is_space c then split_ws s'
      else match s' with
           | EmptyString => [String c EmptyString]
           | String d _ =>
               if is_space d then String c EmptyString :: split_ws s'
               else match split_ws s' with
                    | w :: ws => String c w :: ws
                    | [] => [String c EmptyString]
                    end
           end
  end.

Fixpoint lstrip (s : string) : string :=
  match s with
  | String c s' => if is_space c then lstrip s' else s
  | EmptyString => EmptyString
  end.

Fixpoint rstrip (s : string) : string :=
  match s with
  | EmptyString => EmptyString
  | String c s' =>
      match rstrip s' with
      | EmptyString => if is_space c then EmptyString else String c EmptyString
      | r => String c r
      end
  end.

(** [s.strip()] *)
Definition strip (s : string) : string := rstrip (lstrip s).

(** [sep.join(parts)] *)
Definition join (sep : string) (parts : list string) : string :=
  String.concat sep parts.

Definition repeat (c : ascii) (n : nat) : string :=
  string_of_list_ascii (List.repeat c n).

(** [str(n)] for a non-negative integer. *)
Definition of_nat (n : nat) : string := NilEmpty.string_of_uint (Nat.to_uint n).

Definition mem (s : string) (l : list string) : bool :=
  existsb (String.eqb s) l.

End Str.

(* ================================================================== *)
(** ** The fragment of Python's [re] used by the chatbot

    A backtracking matcher in continuation-passing style: alternatives are
    tried in the order of [re] (a greedy repetition takes the longest run
    first, a lazy one the shortest), and [search] tries the start positions
    from left to right.  The state of a match is the character before the
    current position (for [\b]), the text still to read, and the text of
    group 1 when the pattern has one. *)

Module Re.

Inductive cls : Type :=
| Dot        (* .     : any character but a line feed *)
| Space      (* \s    *)
| Digit      (* \d    *)
| LowerAZ    (* [a-z] *)
| UpperAZ.   (* [A-Z] *)

Definition cls_ok (c : cls) (a : ascii) : bool :=
  match c with
  | Dot => negb (Str.code a =? 10)%nat
  | Space => Str.is_space a
  | Digit => Str.is_digit a
  | LowerAZ => Str.is_lower a
  | UpperAZ => Str.is_upper a
  end.

Inductive re : Type :=
| Lit (w : string)             (* literal characters *)
| Bnd                          (* \b *)
| One (c : cls)                (* c *)
| Plus (c : cls)               (* c+ *)
| PlusLazy (c : cls)           (* c+? *)
| AtLeast (n : nat) (c : cls)  (* c{n,} *)
| Grp (r : re)                 (* (r), group 1 *)
| Cat (r1 r2 : re).

(** The concatenation of the pieces of a pattern, in order. *)
Definition cat (rs : list re) : re := fold_right Cat (Lit "") rs.

Record match_obj : Type := MatchObj {
  m_text : string;           (* group 0 *)
  m_group1 : option string;  (* group 1 *)
  m_prev : option ascii;     (* the last character before the end *)
  m_rest : string            (* the text after the match *)
}.

Definition consumed (before after : string) : string :=
  Str.take (String.length before - String.length after) before.

Definition at_boundary (prev : option ascii) (rest : string) : bool :=
  xorb (match prev with Some a => Str.is_word a | None => false end)
       (match rest with String a _ => Str.is_word a | EmptyString => false end).

Section Matcher.
Context {R : Type}.

Definition cont : Type := option ascii -> string -> option string -> option R.

Fixpoint lit (w : string) (k : cont) (prev : option ascii) (s : string)
         (g : option string) : option R :=
  match w with
  | EmptyString => k prev s g
  | String a w' =>
      match s with
      | String b s' => if Ascii.eqb a b then lit w' k (Some b) s' g else None
      | EmptyString => None
      end
  end.

Fixpoint star_greedy (c : cls) (k : cont) (prev : option ascii) (s : string)
         (g : option string) : option R :=
  match s with
  | String a s' =>
      if cls_ok c a
      then match star_greedy c k (Some a) s' g with
           | Some r => Some r
           | None => k prev s g
           end
      else k prev s g
  | EmptyString => k prev s g
  end.

Fixpoint star_lazy (c : cls) (k : cont) (prev : option ascii) (s : string)
         (g : option string) : option R :=
  match k prev s g with
  | Some r => Some r
  | None =>
      match s with
      | String a s' => if cls_ok c a then star_lazy c k (Some a) s' g else None
      | EmptyString => None
      end
  end.

Definition one (c : cls) (k : cont) : cont :=
  fun prev s g =>
    match s with
    | String a s' => if cls_ok c a then k (Some a) s' g else None
    | EmptyString => None
    end.

Fixpoint at_least (n : nat) (c : cls) (k : cont) : cont :=
  match n with
  | O => star_greedy c k
  | S n' => one c (at_least n' c k)
  end.

Fixpoint run (r : re) (k : cont) : cont :=
  match r with
  | Lit w => lit w k
  | Bnd => fun prev s g => if at_boundary prev s then k prev s g else None
  | One c => one c k
  | Plus c => one c (star_greedy c k)
  | PlusLazy c => one c (star_lazy c k)
  | AtLeast n c => at_least n c k
  | Grp r1 =>
      fun prev s g =>
        run r1 (fun prev' s' _ => k prev' s' (Some (consumed s s'))) prev s g
  | Cat r1 r2 => run r1 (run r2 k)
  end.
End Matcher.

(** A match of [r] that starts at the current position. *)
Definition match_here (r : re) (prev : option ascii) (s : string)
  : option match_obj :=
  run r (fun prev' s' g => Some (MatchObj (consumed s s') g prev' s')) prev s None.

Fixpoint search_from (r : re) (prev : option ascii) (s : string)
  : option match_obj :=
  match match_here r prev s with
  | Some m => Some m
  | None =>
      match s with
      | String a s' => search_from r (Some a) s'
      | EmptyString => None
      end
  end.

(** [re.search(r, s)] *)
Definition search (r : re) (s : string) : option match_obj :=
  search_from r None s.

Definition matches (r : re) (s : string) : bool :=
  match search r s with Some _ => true | None => false end.

(** [re.findall(r, s)] for a pattern without groups: the texts of the
    matches found from left to right, each search resuming where the
    previous match ended (one character further after an empty match). *)
Fixpoint findall_from (fuel : nat) (r : re) (prev : option ascii) (s : string)
  : list string :=
  match fuel with
  | O => []
  | S fuel' =>
      match search_from r prev s with
      | None => []
      | Some m =>
          m_text m ::
          match m_text m, m_rest m with
          | EmptyString, String a s' => findall_from fuel' r (Some a) s'
          | EmptyString, EmptyString => []
          | _, rest => findall_from fuel' r (m_prev m) rest
          end
      end
  end.

Definition findall (r : re) (s : string) : list string :=
  findall_from (S (String.length s)) r None s.

End Re.

(* ================================================================== *)
(** ** Exceptions *)

Inductive exn : Type :=
| AttributeError (msg : string)
| ValueError (msg : string)
| IndexError (msg : string)
| LibraryError (msg : string).   (* raised inside scikit-learn or numpy *)

Inductive result (A : Type) : Type :=
| Ok (a : A)
| Raise (e : exn).

Arguments Ok {A} a.
Arguments Raise {A} e.

(* ================================================================== *)
(** ** [src/indexer.py]: class [DocumentIndexer] *)

Module Indexer.

(** A document as [document_processor.py] stores it, with the key
    ['processed_content'] that [load_documents] adds. *)
Record Document : Type := mkDocument {
  title : string;
  content : string;
  url : string;
  cdp : string;
  processed_content : option string
}.

(** An entry of the list [search] returns: [{'document': .., 'score': ..}].
    A score is a finite binary64 number, held as the rational it denotes. *)
Record SearchResult : Type := mkResult {
  document : Document;
  score : Q
}.

(** The literal [0.1] is the binary64 number 3602879701896397 / 2^55. *)
Definition threshold : Q := 3602879701896397 # 36028797018963968.

(** [score > 0.1] *)
Definition relevant (s : Q) : bool := negb (Qle_bool s threshold).

(** [l[start:]] with Python's treatment of a negative or too large start. *)
Definition slice_from {A : Type} (start : Z) (l : list A) : list A :=
  let n := Z.of_nat (List.length l) in
  let s := if (start <? 0)%Z then Z.max (start + n) 0 else Z.min start n in
  skipn (Z.to_nat s) l.

(** *** [_preprocess_for_how_to] *)

Definition step_patterns : list Re.re :=
  [ Re.cat [Re.Plus Re.Digit; Re.Lit "."; Re.Plus Re.Space; Re.One Re.UpperAZ];
    Re.cat [Re.Lit "step"; Re.Plus Re.Space; Re.Plus Re.Digit];
    Re.cat [Re.Lit "first,"; Re.Plus Re.Space; Re.One Re.LowerAZ];
    Re.cat [Re.Lit "second,"; Re.Plus Re.Space; Re.One Re.LowerAZ];
    Re.cat [Re.Lit "finally,"; Re.Plus Re.Space; Re.One Re.LowerAZ];
    Re.cat [Re.Lit "to"; Re.Plus Re.Space; Re.Plus Re.LowerAZ; Re.Lit ",";
            Re.Plus Re.Space; Re.Lit "you"; Re.Plus Re.Space] ].

Definition how_to_patterns : list Re.re :=
  [ Re.cat [Re.Lit "how"; Re.Plus Re.Space; Re.Lit "to"; Re.Plus Re.Space;
            Re.Plus Re.LowerAZ];
    Re.cat [Re.Lit "guide"; Re.Plus Re.Space; Re.Lit "to"; Re.Plus Re.Space;
            Re.Plus Re.LowerAZ];
    Re.cat [Re.Lit "steps"; Re.Plus Re.Space; Re.Lit "to"; Re.Plus Re.Space;
            Re.Plus Re.LowerAZ];
    Re.cat [Re.Lit "instructions"; Re.Plus Re.Space; Re.Lit "for";
            Re.Plus Re.Space];
    Re.cat [Re.Lit "setup"; Re.Plus Re.Space];
    Re.cat [Re.Lit "configure"; Re.Plus Re.Space];
    Re.cat [Re.Lit "create"; Re.Plus Re.Space];
    Re.cat [Re.Lit "integrate"; Re.Plus Re.Space];
    Re.cat [Re.Lit "connect"; Re.Plus Re.Space] ].

(** One turn of either loop: the matches of [pattern] are appended. *)
Definition add_weight (processed : string) (pattern : Re.re) : string :=
  match Re.findall pattern processed with
  | [] => processed
  | found => processed ++ " " ++ Str.join " " found
  end.

Definition preprocess_for_how_to (content : string) : string :=
  let processed := Str.lower content in
  let processed := fold_left add_weight step_patterns processed in
  fold_left add_weight how_to_patterns processed.

(** *** [_preprocess_query] *)

Definition action_verbs : list string :=
  ["create"; "set up"; "configure"; "integrate"; "connect"; "build"; "use"].

Definition preprocess_query (query : string) : string :=
  let processed := Str.lower query in
  if negb (Str.str_in "how to" processed) && negb (Str.str_in "how do i" processed)
  then if existsb (fun verb => Str.str_in verb processed) action_verbs
       then "how to " ++ processed
       else processed
  else processed.

(** *** The index *)

Section Index.
(** A row of the TF-IDF matrix. *)
Variable row : Type.

(** [self.vectorizer.fit_transform(texts)]: one row per text, or an
    exception of scikit-learn (an empty vocabulary). *)
Variable fit_transform : list string -> result (list row).

(** The entry of [cosine_similarity(self.vectorizer.transform([q]),
    self.tfidf_matrix).flatten()] for one row. *)
Variable similarity : string -> row -> Q.

(** [np.argsort]: the positions of an array, ordered by ascending value. *)
Variable argsort : list Q -> list nat.

Record DocumentIndexer : Type := mkIndexer {
  documents : list Document;
  tfidf_matrix : option (list row)
}.

(** [__init__] *)
Definition init : DocumentIndexer :=
  {| documents := []; tfidf_matrix := None |}.

Definition set_processed (doc : Document) : Document :=
  {| title := title doc; content := content doc; url := url doc;
     cdp := cdp doc;
     processed_content := Some (preprocess_for_how_to (content doc)) |}.

(** [load_documents]; [loaded] is what the files of [docs_dir] hold.  The
    documents are assigned before the matrix is fitted, so they stay when
    fitting raises. *)
Definition load_documents (loaded : list Document) (self : DocumentIndexer)
  : DocumentIndexer * result unit :=
  let docs := map set_processed loaded in
  let texts := map (fun doc => preprocess_for_how_to (content doc)) loaded in
  match fit_transform texts with
  | Ok matrix => ({| documents := docs; tfidf_matrix := Some matrix |}, Ok tt)
  | Raise e => ({| documents := docs; tfidf_matrix := tfidf_matrix self |}, Raise e)
  end.

(** The loop of [search] over [top_indices]. *)
Fixpoint collect (docs : list Document) (similarities : list Q)
         (top_indices : list nat) : result (list SearchResult) :=
  match top_indices with
  | [] => Ok []
  | idx :: rest =>
      match nth_error similarities idx with
      | None => Raise (IndexError "index out of bounds")
      | Some s =>
          if relevant s
          then match nth_error docs idx with
               | None => Raise (IndexError "list index out of range")
               | Some doc =>
                   match collect docs similarities rest with
                   | Ok results => Ok (mkResult doc s :: results)
                   | Raise e => Raise e
                   end
               end
          else collect docs similarities rest
      end
  end.

Definition top_indices_of (similarities : list Q) (top_k : Z) : list nat :=
  let top_k := Z.min top_k (Z.of_nat (List.length similarities)) in
  rev (slice_from (- top_k) (argsort similarities)).

(** [search(query, top_k)] *)
Definition search (self : DocumentIndexer) (query : string) (top_k : Z)
  : result (list SearchResult) :=
  match tfidf_matrix self with
  | None => Raise (AttributeError "'NoneType' object has no attribute 'shape'")
  | Some matrix =>
      if (List.length matrix =? 0)%nat
      then Raise (ValueError "Documents not loaded. Call load_documents() first.")
      else
        let processed_query := preprocess_query query in
        let similarities := map (similarity processed_query) matrix in
        collect (documents self) similarities (top_indices_of similarities top_k)
  end.

(** An index is built when [load_documents] has fitted its matrix. *)
Definition built (self : DocumentIndexer) : Prop :=
  exists loaded, load_documents loaded init = (self, Ok tt).

End Index.

Arguments documents {row} _.
Arguments tfidf_matrix {row} _.
Arguments mkIndexer {row} _ _.
Arguments init {row}.

(** What numpy promises of [argsort]: a permutation of the positions that
    lists the values in ascending order. *)
Definition sorts (argsort : list Q -> list nat) : Prop :=
  forall a : list Q,
    Permutation (argsort a) (seq 0 (List.length a)) /\
    StronglySorted (fun i j => nth i a 0 <= nth j a 0)%Q (argsort a).

(** The order a stable ascending sort puts positions in: by value, and
    equal values by position. *)
Definition stably_before (a : list Q) (i j : nat) : Prop :=
  (nth i a 0 < nth j a 0)%Q \/ ((nth i a 0 == nth j a 0)%Q /\ (i < j)%nat).

Definition stable (argsort : list Q -> list nat) : Prop :=
  forall a : list Q, StronglySorted (stably_before a) (argsort a).

(** Sorting by insertion: a position moves left past the positions of
    strictly greater values only.  It is one function that meets [sorts],
    for the examples where a search has to run; [np.argsort] stays a
    parameter, and the order in which this function lists equal values is
    its own, not one that numpy's default kind promises. *)
Fixpoint insert_pos (a : list Q) (i : nat) (sorted : list nat) : list nat :=
  match sorted with
  | [] => [i]
  | j :: rest =>
      if Qle_bool (nth j a 0) (nth i a 0)
      then j :: insert_pos a i rest
      else i :: j :: rest
  end.

Definition insertion_argsort (a : list Q) : list nat :=
  fold_left (fun sorted i => insert_pos a i sorted) (seq 0 (List.length a)) [].

End Indexer.

(* ================================================================== *)
(** ** [src/chatbot.py]: class [CDPChatbot] *)

Module Chatbot.

Import Indexer.

(** A computation of the chatbot: the queries it sent to the index, in
    order, and its outcome. *)
Definition M (A : Type) : Type := (list string * result A)%type.

Definition ret {A : Type} (a : A) : M A := ([], Ok a).

Definition bind {A B : Type} (m : M A) (f : A -> M B) : M B :=
  match m with
  | (sent, Ok a) => let (sent', r) := f a in ((sent ++ sent')%list, r)
  | (sent, Raise e) => (sent, Raise e)
  end.

(** [try: m  except Exception as e: handler e] *)
Definition try_except {A : Type} (m : M A) (handler : exn -> M A) : M A :=
  match m with
  | (sent, Raise e) => let (sent', r) := handler e in ((sent ++ sent')%list, r)
  | (sent, Ok a) => (sent, Ok a)
  end.

Notation "x <- m ;; k" := (bind m (fun x => k))
  (at level 61, m at next level, right associativity).

Definition nl : string := String (ascii_of_nat 10) EmptyString.

Definition supported_cdps : list string :=
  ["segment"; "mparticle"; "lytics"; "zeotap"].

Definition comparison_keywords : list string :=
  ["compare"; "comparison"; "versus"; "vs"; "difference"; "differences";
   "better"; "best"; "prefer"; "advantage"; "disadvantage"].

(** *** [_truncate_question] *)

Definition question_markers : list string :=
  ["?"; "how"; "what"; "where"; "when"; "why"; "who"; "which"; "can"; "could"].

Fixpoint truncate_at_marker (markers : list string) (question : string)
  : option string :=
  match markers with
  | [] => None
  | marker :: rest =>
      if Str.str_in marker (Str.lower question)
      then match Str.rfind marker (Str.lower question) with
           | Some pos =>
               if (String.length question / 2 <? pos)%nat
               then Some (Str.drop (pos - 50) question)
               else truncate_at_marker rest question
           | None => truncate_at_marker rest question
           end
      else truncate_at_marker rest question
  end.

Definition truncate_question (question : string) : string :=
  match truncate_at_marker question_markers question with
  | Some kept => kept
  | None => Str.last_chars 300 question
  end.

(** *** [_is_cdp_related] *)

Definition cdp_keywords : list string :=
  ["customer data platform"; "cdp"; "integration"; "source"; "audience";
   "segment"; "profile"; "tracking"; "analytics"; "data collection";
   "identity resolution"; "user profile"; "event tracking"; "api";
   "webhook"; "destination"; "data source"; "user data"].

Definition how_to_patterns : list string :=
  ["how to"; "how do i"; "how can i"; "steps to"; "guide for"].

Definition action_verbs : list string :=
  ["create"; "set up"; "configure"; "integrate"; "connect"; "track";
   "implement"].

Definition is_cdp_related (question : string) : bool :=
  let question_lower := Str.lower question in
  if existsb (fun cdp => Str.str_in cdp question_lower) supported_cdps then true
  else if existsb (fun keyword => Str.str_in keyword question_lower) cdp_keywords
  then true
  else existsb (fun pattern =>
                  Str.str_in pattern question_lower &&
                  existsb (fun verb => Str.str_in verb question_lower) action_verbs)
               how_to_patterns.

(** *** [_identify_cdp] *)

Definition segmentation_phrases : list string :=
  ["audience segment"; "user segment"; "customer segment";
   "segment your audience"; "segment your users"; "segment your customers"].

Definition segment_patterns : list Re.re :=
  [ Re.cat [Re.Bnd; Re.Lit "segment"; Re.Bnd];
    Re.cat [Re.Lit "segment"; Re.Plus Re.Space; Re.Lit "cdp"];
    Re.cat [Re.Lit "segment"; Re.Plus Re.Space; Re.Lit "platform"] ].

Definition has_segmentation_phrase (question_lower : string) : bool :=
  existsb (fun phrase => Str.str_in phrase question_lower) segmentation_phrases.

Definition identify_cdp (question : string) : option string :=
  let question_lower := Str.lower question in
  let prioritized :=
    if has_segmentation_phrase question_lower
    then List.find (fun cdp => negb (cdp =? "segment") &&
                               Str.str_in cdp question_lower) supported_cdps
    else None in
  match prioritized with
  | Some cdp => Some cdp
  | None =>
      List.find
        (fun cdp =>
           if cdp =? "segment"
           then if has_segmentation_phrase question_lower
                then false
                else existsb (fun pattern => Re.matches pattern question_lower)
                             segment_patterns
           else Str.str_in cdp question_lower)
        supported_cdps
  end.

(** *** [_is_comparison_question] *)

Definition explicit_comparison_keywords : list string :=
  ["compare"; "versus"; "vs"; "difference between"].

Definition comparison_patterns : list Re.re :=
  [ Re.cat [Re.Lit "how does "; Re.Plus Re.Dot; Re.Lit " compare to"];
    Re.cat [Re.Lit "difference between "; Re.Plus Re.Dot; Re.Lit " and"];
    Re.cat [Re.Lit "which is better "; Re.Plus Re.Dot; Re.Lit " or"];
    Re.Lit "which cdp is better";
    Re.cat [Re.Plus Re.Dot; Re.Lit " vs "; Re.Plus Re.Dot] ].

Definition non_comparison_phrases : list string :=
  ["audience segment"; "user segment"; "customer segment";
   "segment your audience"; "segment your users"; "segment your customers"].

Definition is_comparison_question (question : string) : bool :=
  let question_lower := Str.lower question in
  if existsb
       (fun phrase =>
          Str.str_in phrase question_lower &&
          negb (existsb (fun keyword => Str.str_in keyword question_lower)
                        explicit_comparison_keywords))
       non_comparison_phrases
  then false
  else if existsb (fun keyword => Str.str_in keyword question_lower)
                  comparison_keywords
  then true
  else if existsb (fun pattern => Re.matches pattern question_lower)
                  comparison_patterns
  then true
  else
    let mentioned_cdps :=
      filter (fun cdp =>
                if cdp =? "segment"
                then existsb (fun pattern => Re.matches pattern question_lower)
                             segment_patterns
                else Str.str_in cdp question_lower)
             supported_cdps in
    (2 <=? List.length mentioned_cdps)%nat.

(** *** [_extract_comparison_features] *)

Definition features : list string :=
  ["audience creation"; "audience segmentation"; "data collection";
   "integration"; "identity resolution"; "user profiles"; "event tracking";
   "api"; "performance"; "pricing"; "ease of use"; "implementation";
   "data sources"; "destinations"; "connectors"; "sdks"; "security";
   "compliance"; "data governance"; "reporting"; "analytics"].

(** The dictionary [comparison_patterns], in insertion order: a pattern and
    its default feature ([None] when group 1 holds the feature). *)
Definition feature_patterns : list (Re.re * option string) :=
  [ (Re.Lit "difference between", Some "general capabilities");
    (Re.cat [Re.Lit "which is better for "; Re.Grp (Re.PlusLazy Re.Dot);
             Re.Lit "?"], None);
    (Re.cat [Re.Lit "compare "; Re.Plus Re.Dot; Re.Lit " for ";
             Re.Grp (Re.Plus Re.Dot)], None);
    (Re.cat [Re.Lit "how do "; Re.Plus Re.Dot; Re.Lit " compare in ";
             Re.Grp (Re.Plus Re.Dot)], None) ].

Fixpoint feature_of_pattern (patterns : list (Re.re * option string))
         (question_lower : string) : option string :=
  match patterns with
  | [] => None
  | (pattern, default_feature) :: rest =>
      match Re.search pattern question_lower, default_feature with
      | Some m, None =>
          match Re.m_group1 m with
          | Some feature => Some (Str.strip feature)
          | None => feature_of_pattern rest question_lower
          end
      | Some _, Some EmptyString => feature_of_pattern rest question_lower
      | Some _, Some feature => Some feature
      | None, _ => feature_of_pattern rest question_lower
      end
  end.

Definition stop_words : list string :=
  ["what"; "which"; "when"; "where"; "there"; "their"; "about"; "would";
   "should"; "could"; "between"].

Definition word_pattern : Re.re :=
  Re.cat [Re.Bnd; Re.AtLeast 4 Re.LowerAZ; Re.Bnd].

Definition extract_comparison_features (question : string) : string :=
  let question_lower := Str.lower question in
  match filter (fun feature => Str.str_in feature question_lower) features with
  | (_ :: _) as found_features => Str.join ", " found_features
  | [] =>
      match feature_of_pattern feature_patterns question_lower with
      | Some feature => feature
      | None =>
          let cleaned_question :=
            fold_left (fun cleaned cdp => Str.replace cdp "" cleaned)
                      supported_cdps question_lower in
          let cleaned_question :=
            fold_left (fun cleaned keyword => Str.replace keyword "" cleaned)
                      comparison_keywords cleaned_question in
          let words := Re.findall word_pattern cleaned_question in
          match filter (fun word => negb (Str.mem word stop_words)) words with
          | _ :: _ => "data integration and capabilities"
          | [] => "features and capabilities"
          end
      end
  end.

(** *** [_generate_difference_point] *)

(** The dictionary [comparisons], in insertion order; [t1] and [t2] are
    [cdp1.title()] and [cdp2.title()]. *)
Definition comparisons (t1 t2 : string)
  : list (string * string * string * string) :=
  [ ("segment", "mparticle", "audience",
     t1 ++ " focuses on data collection and routing, while " ++ t2 ++
     " has more advanced audience segmentation capabilities.");
    ("segment", "mparticle", "integration",
     t1 ++ " has a wider range of integrations, while " ++ t2 ++
     " offers deeper mobile-specific integrations.");
    ("segment", "lytics", "audience",
     t1 ++ " requires more technical setup, while " ++ t2 ++
     " offers more marketer-friendly audience creation tools.");
    ("mparticle", "lytics", "audience",
     t1 ++ " excels in mobile data collection, while " ++ t2 ++
     " focuses on content affinity and predictive modeling.");
    ("zeotap", "segment", "identity",
     t1 ++ " has stronger identity resolution capabilities, while " ++ t2 ++
     " offers more flexible data routing options.");
    ("zeotap", "mparticle", "general",
     t1 ++ " specializes in cross-channel identity resolution and data unification, while "
     ++ t2 ++
     " excels in mobile data collection and offers a more developer-friendly interface.");
    ("zeotap", "mparticle", "integration",
     t1 ++ " uses a connection-based approach with detailed data mapping, while "
     ++ t2 ++
     " offers a more streamlined integration process through their dashboard.");
    ("zeotap", "mparticle", "identity",
     t1 ++ " provides more robust identity resolution rules for cross-channel data, while "
     ++ t2 ++
     " focuses on creating comprehensive user profiles with automatic event association.");
    ("zeotap", "mparticle", "features",
     t1 ++ " is better suited for enterprises with complex data environments, while "
     ++ t2 ++
     " is stronger for companies with significant mobile presence.");
    ("zeotap", "mparticle", "capabilities",
     t1 ++ " offers more detailed configuration options for data connections, while "
     ++ t2 ++
     " provides a simpler interface for basic data collection needs.") ].

Fixpoint lookup_comparison (entries : list (string * string * string * string))
         (cdp1 cdp2 feature : string) : option string :=
  match entries with
  | [] => None
  | (c1, c2, f, comparison) :: rest =>
      if (((cdp1 =? c1) && (cdp2 =? c2)) || ((cdp1 =? c2) && (cdp2 =? c1))) &&
         (Str.str_in f feature || (f =? "general") || (f =? "features") ||
          (f =? "capabilities"))
      then
        if negb (cdp1 =? c1)
        then Some (Str.replace "TEMP" (Str.title c2)
                     (Str.replace (Str.title c2) (Str.title c1)
                        (Str.replace (Str.title c1) "TEMP" comparison)))
        else Some comparison
      else lookup_comparison rest cdp1 cdp2 feature
  end.

Definition generate_difference_point (cdp1 cdp2 feature : string) : string :=
  match lookup_comparison (comparisons (Str.title cdp1) (Str.title cdp2))
                          cdp1 cdp2 feature with
  | Some comparison => comparison
  | None =>
      Str.title cdp1 ++ " and " ++ Str.title cdp2 ++
      " have different approaches to " ++ feature ++
      ", with each offering unique advantages depending on your specific use case."
  end.

(** *** [_format_response] *)

Definition step_indicators : list string :=
  ["Step 1"; "1."; "First"; "To begin"; "Start by"].

Definition shorten_content (content : string) : string :=
  if (800 <? String.length content)%nat
  then match List.find (fun indicator => Str.str_in indicator content)
                       step_indicators with
       | Some indicator =>
           match Str.find indicator content with
           | Some pos => Str.slice pos (pos + 800) content ++ "..."
           | None => content
           end
       | None => Str.take 800 content ++ "..."
       end
  else content.

Fixpoint resource_lines (i : nat) (results : list SearchResult) : string :=
  match results with
  | [] => EmptyString
  | r :: rest =>
      let doc := document r in
      Str.of_nat i ++ ". " ++
      (match title doc with
       | EmptyString => "Additional resource"
       | t => t
       end) ++ ": " ++ url doc ++ nl ++ resource_lines (S i) rest
  end.

Definition format_response (results : list SearchResult) (cdp : option string)
  : string :=
  match results with
  | [] => "I couldn't find specific information about that. Could you please rephrase your question?"
  | best :: others =>
      let best_match := document best in
      let cdp := match cdp with
                 | None | Some EmptyString => Indexer.cdp best_match
                 | Some name => name
                 end in
      let response := "Here's how to do that in " ++ Str.title cdp ++ ":" ++ nl ++ nl in
      let response := response ++ shorten_content (content best_match) ++ nl ++ nl in
      let response := response ++ "Source: " ++ url best_match in
      match others with
      | [] => response
      | _ :: _ =>
          response ++ nl ++ nl ++ "You might also find these resources helpful:" ++ nl
          ++ resource_lines 1 (firstn 2 others)
      end
  end.

(** *** [_handle_comparison_question] and [answer_question] *)

(** The patterns that infer a CDP the question does not name in full. *)
Definition inference_patterns (cdp : string) : list Re.re :=
  [ Re.Lit ("difference between " ++ cdp ++ " and");
    Re.cat [Re.Lit "difference between "; Re.Plus Re.Dot; Re.Lit (" and " ++ cdp)];
    Re.Lit (cdp ++ " vs");
    Re.Lit ("vs " ++ cdp);
    Re.cat [Re.Lit "compare "; Re.Plus Re.Dot; Re.Lit (" to " ++ cdp)];
    Re.Lit ("compare " ++ cdp ++ " to") ].

Definition inferred (question_lower cdp : string) : bool :=
  existsb (fun pattern => Re.matches pattern question_lower)
          (inference_patterns cdp).

(** The CDPs a comparison is about: the statements of
    [_handle_comparison_question] down to [mentioned_cdps[:2]]. *)
Definition compared_cdps (question : string) : list string :=
  let question_lower := Str.lower question in
  let mentioned_cdps :=
    filter (fun cdp => Str.str_in cdp question_lower) supported_cdps in
  let mentioned_cdps :=
    if (List.length mentioned_cdps <? 2)%nat
    then
      let mentioned_cdps :=
        fold_left
          (fun mentioned cdp =>
             if negb (Str.mem cdp mentioned) && inferred question_lower cdp
             then (mentioned ++ [cdp])%list
             else mentioned)
          supported_cdps mentioned_cdps in
      if (List.length mentioned_cdps <? 2)%nat
      then
        let remaining_cdps :=
          filter (fun cdp => negb (Str.mem cdp mentioned_cdps)) supported_cdps in
        (mentioned_cdps ++ firstn (2 - List.length mentioned_cdps) remaining_cdps)%list
      else mentioned_cdps
    else mentioned_cdps in
  firstn 2 mentioned_cdps.

(** The part of a long document shown in a comparison. *)
Definition comparison_content (comparison_features content : string) : string :=
  if (300 <? String.length content)%nat
  then
    let sentences := Str.split_on "." content in
    let relevant_sentences :=
      filter (fun sentence =>
                existsb (fun feature => Str.str_in feature (Str.lower sentence))
                        (Str.split_ws comparison_features))
             sentences in
    match relevant_sentences with
    | _ :: _ => Str.join ". " (firstn 3 relevant_sentences) ++ "."
    | [] => Str.take 300 content ++ "..."
    end
  else content.

Definition comparison_block (comparison_features : string)
           (entry : string * SearchResult) : string :=
  let (cdp, r) := entry in
  "**" ++ Str.title cdp ++ "**:" ++ nl ++
  comparison_content comparison_features (content (document r)) ++ nl ++ nl.

Definition refusal : string :=
  "I'm a CDP Support chatbot. I can only answer questions related to Customer Data Platforms (CDPs) like Segment, mParticle, Lytics, or Zeotap. Please ask me how to perform specific tasks within these platforms.".

Definition apology : string :=
  "I'm having trouble processing that question. Could you please try rephrasing it or asking about a different topic?".

Definition no_results : string :=
  "I couldn't find specific information about that. Could you please rephrase your question? Try asking how to perform a specific task in "
  ++ Str.join ", " supported_cdps ++ ".".

Section Bot.
(** [self.indexer.search(query)], with the default [top_k]. *)
Variable search : string -> result (list SearchResult).

Definition indexer_search (query : string) : M (list SearchResult) :=
  ([query], search query).

(** The loop that queries the index once per compared CDP and keeps the
    best match of each. *)
Fixpoint best_matches (comparison_features : string) (cdps : list string)
  : M (list (string * SearchResult)) :=
  match cdps with
  | [] => ret []
  | cdp :: rest =>
      results <- indexer_search (comparison_features ++ " in " ++ cdp) ;;
      more <- best_matches comparison_features rest ;;
      ret (match results with
           | best :: _ => (cdp, best) :: more
           | [] => more
           end)
  end.

Definition handle_comparison_question (question : string) : M string :=
  let mentioned_cdps := compared_cdps question in
  let comparison_features := extract_comparison_features question in
  all_results <- best_matches comparison_features mentioned_cdps ;;
  match all_results with
  | [] =>
      ret ("I don't have enough information to compare " ++
           Str.join " and " mentioned_cdps ++ " regarding " ++
           comparison_features ++
           ". Could you please ask a more specific question?")
  | _ :: _ =>
      let response :=
        "Here's a comparison of " ++ comparison_features ++ " between " ++
        Str.join " and " mentioned_cdps ++ ":" ++ nl ++ nl in
      let response :=
        fold_left (fun response entry =>
                     response ++ comparison_block comparison_features entry)
                  all_results response in
      let response := response ++ "**Key Differences**:" ++ nl in
      let response :=
        match all_results with
        | (cdp1, _) :: (cdp2, _) :: _ =>
            response ++ "- " ++
            generate_difference_point cdp1 cdp2 comparison_features ++ nl
        | _ => response
        end in
      ret (response ++ nl ++
           "Note: This comparison is based on the available documentation. For more detailed comparisons, you may want to consult each platform's full documentation.")
  end.

(** [answer_question] after its length check: the question is classified
    and the index is searched. *)
Definition respond (question : string) : M string :=
  if negb (is_cdp_related question) then ret refusal
  else if is_comparison_question question
  then handle_comparison_question question
  else
    let cdp := identify_cdp question in
    try_except
      (results <- indexer_search question ;;
       match results with
       | [] => ret no_results
       | _ :: _ => ret (format_response results cdp)
       end)
      (fun _ => ret apology).

Definition answer_question (question : string) : M string :=
  let question :=
    if (500 <? String.length question)%nat
    then truncate_question question
    else question in
  respond question.

End Bot.

End Chatbot.

(* ================================================================== *)
(** ** The chatbot over its index, and the callers of [answer_question] *)

Module Service.
Import Indexer Chatbot.

(** The result of the handler of [POST /ask] in [src/api.py] and
    [src/web_app.py]: the JSON body [{"response": ..}], or the
    [HTTPException] it raises. *)
Inductive http_result : Type :=
| Response (response : string)
| HTTPException (status_code : nat) (detail : string).

(** [str(e)] for an exception built from its message. *)
Definition str_of_exn (e : exn) : string :=
  match e with
  | AttributeError msg | ValueError msg | IndexError msg | LibraryError msg => msg
  end.

(** How a session of [src/cli.py] ends: the user typed an exit word, or
    [input] met the end of the input and raised [EOFError], which nothing
    in [main] catches. *)
Inductive session_end : Type :=
| Goodbye
| EndOfInput.

(** What the loop shows for one line: [Chatbot: <response>], or
    [Error: <str(e)>] when [answer_question] raised. *)
Inductive reply : Type :=
| Answered (response : string)
| Failed (detail : string).

Definition exit_words : list string := ["exit"; "quit"; "bye"; "goodbye"].

Section Service.
Variable row : Type.
Variable fit_transform : list string -> result (list row).
Variable similarity : string -> row -> Q.
Variable argsort : list Q -> list nat.

(** [CDPChatbot.__init__]: the indexer is created and loaded; an exception
    of [load_documents] leaves the constructor, so no chatbot exists then.
    The chatbot is known by its indexer, its two lists being constants. *)
Definition new_chatbot (loaded : list Document) : result (DocumentIndexer row) :=
  match load_documents row fit_transform loaded init with
  | (indexer, Ok _) => Ok indexer
  | (_, Raise e) => Raise e
  end.

(** [self.indexer.search(query)]: [top_k] has its default, 3. *)
Definition search_top3 (indexer : DocumentIndexer row) (query : string)
  : result (list SearchResult) :=
  Indexer.search row similarity argsort indexer query 3.

(** [chatbot.answer_question(question)] *)
Definition chatbot_answer (indexer : DocumentIndexer row) (question : string)
  : M string :=
  answer_question (search_top3 indexer) question.

(** [ask_question] of [src/api.py] and [src/web_app.py] *)
Definition ask_question (indexer : DocumentIndexer row) (text : string)
  : http_result :=
  match snd (chatbot_answer indexer text) with
  | Ok response => Response response
  | Raise e => HTTPException 500 (str_of_exn e)
  end.

(** One turn of the loop of [main] in [src/cli.py] for a line that is not
    an exit word: the answer is shown, or the error when [answer_question]
    raised. *)
Definition reply_to (indexer : DocumentIndexer row) (user_input : string)
  : reply :=
  match snd (chatbot_answer indexer user_input) with
  | Ok response => Answered response
  | Raise e => Failed (str_of_exn e)
  end.

(** The loop of [main], over the lines the user types: the reply shown
    after each line that was read, and how the session ended.  A line that
    is an exit word gets the farewell and no reply. *)
Fixpoint session (indexer : DocumentIndexer row) (inputs : list string)
  : list reply * session_end :=
  match inputs with
  | [] => ([], EndOfInput)
  | user_input :: rest =>
      if Str.mem (Str.lower user_input) exit_words
      then ([], Goodbye)
      else
        let (more, how) := session indexer rest in
        (reply_to indexer user_input :: more, how)
  end.

End Service.

End Service.

(* ================================================================== *)
(** ** Vocabulary of the statements *)

Module Vocabulary.
Import Indexer Chatbot.

(** Containment that ignores case, the way every classifier tests a
    question: [w in question.lower()]. *)
Definition mentions (w question : string) : bool :=
  Str.str_in w (Str.lower question).

(** The three tests of [_is_cdp_related], as the specification words them. *)
Definition names_no_cdp (question : string) : Prop :=
  Forall (fun cdp => mentions cdp question = false) supported_cdps.

Definition has_no_cdp_keyword (question : string) : Prop :=
  Forall (fun keyword => mentions keyword question = false) cdp_keywords.

Definition has_no_how_to_with_verb (question : string) : Prop :=
  Forall (fun pattern =>
            mentions pattern question = true ->
            Forall (fun verb => mentions verb question = false) action_verbs)
         how_to_patterns.

(** An index that answers every query. *)
Definition answers (search : string -> result (list SearchResult)) : Prop :=
  forall query, exists results, search query = Ok results.

(** The queries of a comparison: one per compared CDP. *)
Definition comparison_queries (question : string) : list string :=
  map (fun cdp => extract_comparison_features question ++ " in " ++ cdp)
      (compared_cdps question).

(** What [answer_question] classifies and searches with. *)
Definition effective (question : string) : string :=
  if (500 <? String.length question)%nat
  then truncate_question question
  else question.


(** [_handle_comparison_question] selects the compared CDPs with two tests
    only: whether the question names a CDP, and whether a pattern infers
    it.  [select] is that selection with the tests as parameters. *)
Definition select (named inf : string -> bool) : list string :=
  let mentioned_cdps := filter named supported_cdps in
  let mentioned_cdps :=
    if (List.length mentioned_cdps <? 2)%nat
    then
      let mentioned_cdps :=
        fold_left
          (fun mentioned cdp =>
             if negb (Str.mem cdp mentioned) && inf cdp
             then (mentioned ++ [cdp])%list
             else mentioned)
          supported_cdps mentioned_cdps in
      if (List.length mentioned_cdps <? 2)%nat
      then
        let remaining_cdps :=
          filter (fun cdp => negb (Str.mem cdp mentioned_cdps)) supported_cdps in
        (mentioned_cdps ++ firstn (2 - List.length mentioned_cdps) remaining_cdps)%list
      else mentioned_cdps
    else mentioned_cdps in
  firstn 2 mentioned_cdps.

(** A test given by its value at each supported CDP. *)
Definition table (b1 b2 b3 b4 : bool) (cdp : string) : bool :=
  if cdp =? "segment" then b1
  else if cdp =? "mparticle" then b2
  else if cdp =? "lytics" then b3
  else if cdp =? "zeotap" then b4
  else false.

(** A question of 1110 characters whose only question mark lies just past
    its middle: what [_truncate_question] keeps of it is still longer than
    500 characters. *)
Definition long_question : string :=
  Str.repeat "x" 600 ++ "? segment " ++ Str.repeat "x" 500.

(** A question of 557 characters that ends with what is asked. *)
Definition trailing_question : string :=
  Str.repeat "x" 520 ++ " how do I set up a source in Segment?".


(** An index that finds nothing. *)
Definition empty_search (query : string) : result (list SearchResult) :=
  Ok [].

(** [suffix_of s' s]: the text [s'] ends the text [s]. *)
Definition suffix_of (s' s : string) : Prop := exists pre, s = pre ++ s'.

(** The runs of literal characters of a pattern. *)
Fixpoint literals (r : Re.re) : list string :=
  match r with
  | Re.Lit w => [w]
  | Re.Grp r1 => literals r1
  | Re.Cat r1 r2 => (literals r1 ++ literals r2)%list
  | _ => []
  end.

(** The corpus positions of the results of a search, in result order: the
    positions of the ranking whose similarity is above the threshold. *)
Definition result_positions (row : Type) (similarity : string -> row -> Q)
           (argsort : list Q -> list nat) (matrix : list row) (query : string)
           (top_k : Z) : list nat :=
  let similarities := map (similarity (preprocess_query query)) matrix in
  filter (fun idx => relevant (nth idx similarities 0))
         (top_indices_of argsort similarities top_k).

(** [ranked_before a i j]: in a ranking by the values of [a], position [i]
    may stand before position [j]: its value is greater, or equal with [i]
    the later position of the corpus. *)
Definition ranked_before (a : list Q) (i j : nat) : Prop :=
  (nth j a 0 < nth i a 0)%Q \/ ((nth i a 0 == nth j a 0)%Q /\ (j < i)%nat).

(** The result [r] is the document at position [i] of the corpus, with the
    similarity of that position. *)
Definition result_at (docs : list Document) (a : list Q) (i : nat)
           (r : SearchResult) : Prop :=
  nth_error docs i = Some (document r) /\ nth_error a i = Some (score r).

(** A corpus of two documents, and an index of it whose matrix rows are
    the similarities themselves. *)
Definition doc_a : Document :=
  mkDocument "Sources" "Create a source in Segment."
             "https://segment.com/docs/sources" "segment" None.

Definition doc_b : Document :=
  mkDocument "Inputs" "Create an input in mParticle."
             "https://docs.mparticle.com/inputs" "mparticle" None.

Definition fit_rows (rows : list Q) (texts : list string) : result (list Q) :=
  if (List.length texts =? List.length rows)%nat then Ok rows
  else Raise (ValueError "empty vocabulary").

Definition row_similarity (query : string) (r : Q) : Q := r.

Definition two_docs_index (s_a s_b : Q) : DocumentIndexer Q :=
  fst (load_documents Q (fit_rows [s_a; s_b]) [doc_a; doc_b] init).

End Vocabulary.

(* ================================================================== *)
(** ** Further vocabulary *)

Module Statements.
Import Indexer Chatbot Vocabulary.

(** What scikit-learn promises of [fit_transform]: one row per text. *)
Definition one_row_per_text {row : Type}
           (fit_transform : list string -> result (list row)) : Prop :=
  forall texts matrix,
    fit_transform texts = Ok matrix -> List.length matrix = List.length texts.

(** A vectorizer that cannot be fitted, as on a corpus without vocabulary. *)
Definition fit_fails (texts : list string) : result (list Q) :=
  Raise (ValueError "empty vocabulary; perhaps the documents only contain stop words").

(** Some character of the text passes the test. *)
Fixpoint any_char (p : ascii -> bool) (s : string) : bool :=
  match s with
  | EmptyString => false
  | String a s' => p a || any_char p s'
  end.

(** The character classes of which a match of the pattern reads at least
    one character. *)
Fixpoint required_classes (r : Re.re) : list Re.cls :=
  match r with
  | Re.One c | Re.Plus c | Re.PlusLazy c | Re.AtLeast (S _) c => [c]
  | Re.Grp r1 => required_classes r1
  | Re.Cat r1 r2 => (required_classes r1 ++ required_classes r2)%list
  | _ => []
  end.

(** [_generate_difference_point] looks at the feature through one test
    only, whether a word of the table occurs in it.  [lookup_with] is the
    loop over the table with that test as a parameter. *)
Fixpoint lookup_with (test : string -> bool)
         (entries : list (string * string * string * string))
         (cdp1 cdp2 : string) : option string :=
  match entries with
  | [] => None
  | (c1, c2, f, comparison) :: rest =>
      if (((cdp1 =? c1) && (cdp2 =? c2)) || ((cdp1 =? c2) && (cdp2 =? c1))) &&
         (test f || (f =? "general") || (f =? "features") ||
          (f =? "capabilities"))
      then
        if negb (cdp1 =? c1)
        then Some (Str.replace "TEMP" (Str.title c2)
                     (Str.replace (Str.title c2) (Str.title c1)
                        (Str.replace (Str.title c1) "TEMP" comparison)))
        else Some comparison
      else lookup_with test rest cdp1 cdp2
  end.

(** The test given by its value at the three words of the table that are
    tested. *)
Definition feature_table (audience integration identity : bool) (f : string)
  : bool :=
  if f =? "audience" then audience
  else if f =? "integration" then integration
  else if f =? "identity" then identity
  else false.

(** The sentence of the table for Zeotap and mParticle in general. *)
Definition zeotap_mparticle_sentence : string :=
  "Zeotap specializes in cross-channel identity resolution and data unification, while Mparticle excels in mobile data collection and offers a more developer-friendly interface.".

(** The CDPs of a question that names them first, the others after, each
    group in the fixed order. *)
Definition named_first (question : string) : list string :=
  (filter (fun cdp => mentions cdp question) supported_cdps ++
   filter (fun cdp => negb (mentions cdp question)) supported_cdps)%list.

(** An index that knows Segment only: it finds [doc_a] for a query that
    names Segment and nothing for any other query. *)
Definition segment_only_search (query : string)
  : result (list SearchResult) :=
  if Str.str_in "segment" query then Ok [mkResult doc_a (1 # 2)] else Ok [].

(** The closing note of a comparison. *)
Definition comparison_note : string :=
  "Note: This comparison is based on the available documentation. For more detailed comparisons, you may want to consult each platform's full documentation.".

(** No occurrence of the marker in the lower-cased question lies past the
    middle of the question. *)
Definition not_past_middle (question marker : string) : Prop :=
  forall pos,
    Str.rfind marker (Str.lower question) = Some pos ->
    (pos <= String.length question / 2)%nat.

(** An [argsort] that lists equal values by descending position. *)
Definition ties_descending (argsort : list Q -> list nat) : Prop :=
  forall a : list Q,
    StronglySorted
      (fun i j => (nth i a 0 < nth j a 0)%Q \/
                  ((nth i a 0 == nth j a 0)%Q /\ (j < i)%nat))
      (argsort a).

(** [ranked_by_insertion a i j]: in a ranking by the values of [a],
    position [i] may stand before position [j]: its value is greater, or
    equal with [i] the earlier position of the corpus. *)
Definition ranked_by_insertion (a : list Q) (i j : nat) : Prop :=
  (nth j a 0 < nth i a 0)%Q \/ ((nth i a 0 == nth j a 0)%Q /\ (i < j)%nat).

(** A second sorting function: the positions sorted by descending negated
    value, read backwards.  It lists equal values by descending position. *)
Definition descending_ties_argsort (a : list Q) : list nat :=
  rev (insertion_argsort (map Qopp a)).

End Statements.
(* ================================================================== *)
(** ** Facts about strings *)

Module StrFacts.
Import Str.

Lemma lower_char_idem (c : ascii) : lower_char (lower_char c) = lower_char c.
Proof.
  destruct c as [[] [] [] [] [] [] [] []]; reflexivity.
Qed.

Lemma lower_idem (s : string) : lower (lower s) = lower s.
Proof.
  induction s as [|c s IH]; simpl.
  - reflexivity.
  - now rewrite lower_char_idem, IH.
Qed.

Lemma lower_app (a b : string) : lower (a ++ b) = lower a ++ lower b.
Proof.
  induction a as [|c a IH]; simpl.
  - reflexivity.
  - now rewrite IH.
Qed.

Lemma length_lower (s : string) : String.length (lower s) = String.length s.
Proof.
  induction s as [|c s IH]; simpl; congruence.
Qed.

Lemma prefix_lower (w s : string) :
  String.prefix w s = true -> String.prefix (lower w) (lower s) = true.
Proof.
  revert w; induction s as [|b s IH]; intros [|a w]; simpl; try easy.
  destruct (ascii_dec a b) as [E|E]; [subst a|discriminate].
  intros H. destruct (ascii_dec (lower_char b) (lower_char b)); [|congruence].
  now apply IH.
Qed.

Lemma str_in_lower (w s : string) :
  str_in w s = true -> str_in (lower w) (lower s) = true.
Proof.
  induction s as [|c s IH].
  - destruct w; [reflexivity | discriminate].
  - change (str_in w (String c s))
      with (if String.prefix w (String c s) then true else str_in w s).
    change (str_in (lower w) (lower (String c s)))
      with (if String.prefix (lower w) (lower (String c s)) then true
            else str_in (lower w) (lower s)).
    destruct (String.prefix w (String c s)) eqn:E.
    + intros _. apply prefix_lower in E. now rewrite E.
    + intros H. apply IH in H. rewrite H.
      now destruct (String.prefix (lower w) (lower (String c s))).
Qed.

Lemma str_in_cons (w s : string) (c : ascii) :
  str_in w s = true -> str_in w (String c s) = true.
Proof.
  intros H. change (str_in w (String c s))
    with (if String.prefix w (String c s) then true else str_in w s).
  rewrite H. now destruct (String.prefix w (String c s)).
Qed.

(** A word found in a suffix is found in the whole text. *)
Lemma str_in_app_r (w pre s : string) :
  str_in w s = true -> str_in w (pre ++ s) = true.
Proof.
  intros H. induction pre as [|c pre IH]; simpl.
  - exact H.
  - now apply str_in_cons.
Qed.

Lemma take_drop (n : nat) (s : string) : take n s ++ drop n s = s.
Proof.
  revert s; induction n as [|n IH]; intros [|c s]; simpl; try reflexivity.
  now rewrite IH.
Qed.

Lemma length_drop (n : nat) (s : string) :
  String.length (drop n s) = (String.length s - n)%nat.
Proof.
  revert s; induction n as [|n IH]; intros [|c s]; simpl; auto.
Qed.

Lemma length_app (a b : string) :
  String.length (a ++ b) = (String.length a + String.length b)%nat.
Proof.
  induction a as [|c a IH]; simpl; congruence.
Qed.

Lemma length_repeat (c : ascii) (n : nat) : String.length (repeat c n) = n.
Proof.
  unfold repeat. induction n as [|n IH]; simpl; congruence.
Qed.

End StrFacts.

(* ================================================================== *)
(** ** Query preprocessing *)

Module QueryFacts.
Import Str StrFacts Indexer Vocabulary.

Lemma how_to_prefixed (s : string) : str_in "how to" ("how to " ++ s) = true.
Proof. reflexivity. Qed.

(** Preprocessing any query twice is preprocessing it once. *)
Lemma preprocess_query_idempotent (x : string) :
  preprocess_query (preprocess_query x) = preprocess_query x.
Proof.
  unfold preprocess_query at 2 3.
  destruct (negb (str_in "how to" (lower x)) && negb (str_in "how do i" (lower x)))
    eqn:Hlack.
  - destruct (existsb (fun verb => str_in verb (lower x)) action_verbs) eqn:Hverb.
    + unfold preprocess_query.
      rewrite lower_app, lower_idem.
      change (lower "how to ") with "how to ".
      now rewrite how_to_prefixed.
    + unfold preprocess_query. rewrite lower_idem, Hlack, Hverb. reflexivity.
  - unfold preprocess_query. rewrite lower_idem, Hlack. reflexivity.
Qed.

(** C9. Preprocessing is idempotent, on every query. A query that
    contains "how to", as it is written or in any other case of its
    letters, is only lower-cased, so preprocessing it twice is
    preprocessing it once; and a query that lacks "how to" and "how do i"
    in every case of their letters is rewritten at most once: the result
    is the lower-cased query, alone or behind a single "how to " prefix. *)
Theorem preprocess_query_how_to (x : string) :
  preprocess_query (preprocess_query x) = preprocess_query x /\
  (str_in "how to" x = true \/ mentions "how to" x = true ->
   preprocess_query x = lower x /\
   preprocess_query (preprocess_query x) = preprocess_query x) /\
  (mentions "how to" x = false -> mentions "how do i" x = false ->
   preprocess_query x =
     (if existsb (fun verb => mentions verb x) action_verbs
      then "how to " ++ lower x else lower x) /\
   (preprocess_query x = lower x \/ preprocess_query x = "how to " ++ lower x)).
Proof.
  split; [apply preprocess_query_idempotent|]. split.
  - intros H. split; [|apply preprocess_query_idempotent].
    assert (Hm : str_in "how to" (lower x) = true).
    { destruct H as [H|H]; [|exact H].
      apply str_in_lower in H. exact H. }
    unfold preprocess_query. now rewrite Hm.
  - unfold mentions. intros H1 H2. unfold preprocess_query.
    rewrite H1, H2. cbn [negb andb].
    destruct (existsb (fun verb => str_in verb (lower x)) action_verbs);
      (split; [reflexivity | auto]).
Qed.

Lemma preprocess_query_how_to_witness :
  (str_in "how to" "How to create a source" = false /\
   mentions "how to" "How to create a source" = true /\
   preprocess_query "How to create a source" = "how to create a source" /\
   preprocess_query (preprocess_query "How to create a source")
   = preprocess_query "How to create a source") /\
  (str_in "how to" "Tell me how to Create a source" = true /\
   preprocess_query "Tell me how to Create a source"
   = "tell me how to create a source") /\
  (mentions "how to" "Create a Source" = false /\
   mentions "how do i" "Create a Source" = false /\
   preprocess_query "Create a Source" = "how to create a source").
Proof.
  split; [|split].
  - split; [reflexivity|]. split; [reflexivity|].
    apply (proj1 (proj2 (preprocess_query_how_to "How to create a source"))).
    right. reflexivity.
  - split; [reflexivity|].
    apply (proj1 (proj2 (preprocess_query_how_to
                           "Tell me how to Create a source"))).
    left. reflexivity.
  - split; [reflexivity|]. split; [reflexivity|].
    apply (proj2 (proj2 (preprocess_query_how_to "Create a Source")));
      reflexivity.
Defined.

End QueryFacts.

(* ================================================================== *)
(** ** Facts about the matcher *)

Module ReFacts.
Import Str StrFacts Re Vocabulary.

Lemma suffix_of_refl (s : string) : suffix_of s s.
Proof. now exists EmptyString. Qed.

Lemma suffix_of_cons (c : ascii) (s' s : string) :
  suffix_of s' s -> suffix_of s' (String c s).
Proof. intros [pre ->]. now exists (String c pre). Qed.

Lemma append_assoc (a b c : string) : (a ++ b) ++ c = a ++ (b ++ c).
Proof.
  induction a as [|x a IH]; simpl; congruence.
Qed.

Lemma suffix_of_trans (s1 s2 s3 : string) :
  suffix_of s1 s2 -> suffix_of s2 s3 -> suffix_of s1 s3.
Proof.
  intros [p ->] [q ->]. exists (q ++ p). now rewrite append_assoc.
Qed.

Lemma suffix_of_app (w s : string) : suffix_of s (w ++ s).
Proof. now exists w. Qed.

Lemma str_in_suffix (w s' s : string) :
  suffix_of s' s -> str_in w s' = true -> str_in w s = true.
Proof. intros [pre ->]. apply str_in_app_r. Qed.

Lemma prefix_split (w s : string) :
  String.prefix w s = true -> exists post, s = w ++ post.
Proof.
  revert w. induction s as [|b s IH]; intros [|a w]; simpl; try discriminate.
  - now exists EmptyString.
  - now exists (String b s).
  - destruct (ascii_dec a b) as [E|E]; [subst a|discriminate].
    intros H. destruct (IH w H) as [post ->]. now exists post.
Qed.

Lemma prefix_app (w post : string) : String.prefix w (w ++ post) = true.
Proof.
  induction w as [|a w IH]; simpl.
  - now destruct post.
  - destruct (ascii_dec a a); [exact IH | congruence].
Qed.

Lemma str_in_split (w s : string) :
  str_in w s = true -> exists pre post, s = pre ++ w ++ post.
Proof.
  induction s as [|c s IH].
  - destruct w; [|discriminate]. intros _. now exists EmptyString, EmptyString.
  - change (str_in w (String c s))
      with (if String.prefix w (String c s) then true else str_in w s).
    destruct (String.prefix w (String c s)) eqn:E.
    + intros _. destruct (prefix_split _ _ E) as [post ->].
      now exists EmptyString, post.
    + intros H. destruct (IH H) as [pre [post ->]].
      now exists (String c pre), post.
Qed.

Lemma str_in_here (w post : string) : str_in w (w ++ post) = true.
Proof.
  destruct (w ++ post) eqn:E; cbn [str_in]; rewrite <- E, prefix_app;
    reflexivity.
Qed.

Lemma str_in_middle (w pre post : string) : str_in w (pre ++ w ++ post) = true.
Proof. apply str_in_app_r, str_in_here. Qed.

(** A word inside a word inside a text is inside the text. *)
Lemma str_in_trans (a b c : string) :
  str_in a b = true -> str_in b c = true -> str_in a c = true.
Proof.
  intros Hab Hbc.
  destruct (str_in_split _ _ Hab) as [p [q ->]].
  destruct (str_in_split _ _ Hbc) as [p' [q' ->]].
  replace (p' ++ (p ++ a ++ q) ++ q') with ((p' ++ p) ++ a ++ (q ++ q')).
  - apply str_in_middle.
  - now rewrite !append_assoc.
Qed.

Section Runs.
Context {R : Type}.
Implicit Types (k : @cont R) (x : R).

Lemma lit_reads w k prev s g x :
  lit w k prev s g = Some x ->
  exists prev' s', s = w ++ s' /\ k prev' s' g = Some x.
Proof.
  revert prev s. induction w as [|a w IH]; intros prev s; simpl.
  - intros H. now exists prev, s.
  - destruct s as [|b s]; [discriminate|].
    destruct (Ascii.eqb a b) eqn:E; [|discriminate].
    apply Ascii.eqb_eq in E. subst b. intros H.
    destruct (IH _ _ H) as [prev' [s' [-> Hk]]]. now exists prev', s'.
Qed.

Lemma star_greedy_reads c k prev s g x :
  star_greedy c k prev s g = Some x ->
  exists prev' s', suffix_of s' s /\ k prev' s' g = Some x.
Proof.
  revert prev. induction s as [|a s IH]; intros prev; simpl.
  - intros H. exists prev, EmptyString. split; [apply suffix_of_refl | exact H].
  - destruct (cls_ok c a).
    + destruct (star_greedy c k (Some a) s g) as [y|] eqn:E.
      * intros [= <-]. destruct (IH _ E) as [prev' [s' [Hs Hk]]].
        exists prev', s'. split; [now apply suffix_of_cons | exact Hk].
      * intros H. exists prev, (String a s).
        split; [apply suffix_of_refl | exact H].
    + intros H. exists prev, (String a s).
      split; [apply suffix_of_refl | exact H].
Qed.

Lemma star_lazy_reads c k prev s g x :
  star_lazy c k prev s g = Some x ->
  exists prev' s', suffix_of s' s /\ k prev' s' g = Some x.
Proof.
  revert prev. induction s as [|a s IH]; intros prev; simpl.
  - destruct (k prev EmptyString g) as [y|] eqn:E; [|discriminate].
    intros [= <-]. exists prev, EmptyString.
    split; [apply suffix_of_refl | exact E].
  - destruct (k prev (String a s) g) as [y|] eqn:E.
    + intros [= <-]. exists prev, (String a s).
      split; [apply suffix_of_refl | exact E].
    + destruct (cls_ok c a); [|discriminate]. intros H.
      destruct (IH _ H) as [prev' [s' [Hs Hk]]].
      exists prev', s'. split; [now apply suffix_of_cons | exact Hk].
Qed.

Lemma one_reads c k prev s g x :
  one c k prev s g = Some x ->
  exists prev' s', suffix_of s' s /\ k prev' s' g = Some x.
Proof.
  unfold one. destruct s as [|a s]; [discriminate|].
  destruct (cls_ok c a); [|discriminate]. intros H.
  exists (Some a), s. split; [apply suffix_of_cons, suffix_of_refl | exact H].
Qed.

Lemma at_least_reads n c k prev s g x :
  at_least n c k prev s g = Some x ->
  exists prev' s', suffix_of s' s /\ k prev' s' g = Some x.
Proof.
  revert prev s. induction n as [|n IH]; intros prev s; simpl.
  - apply star_greedy_reads.
  - intros H. destruct (one_reads _ _ _ _ _ _ H) as [p1 [s1 [Hs1 H1]]].
    destruct (IH _ _ H1) as [p2 [s2 [Hs2 H2]]].
    exists p2, s2. split; [eapply suffix_of_trans; eassumption | exact H2].
Qed.

(** A run of a pattern that succeeds has read every literal of the pattern
    in the text, and has handed a suffix of the text to its continuation. *)
Lemma run_reads r : forall k prev s g x,
  run r k prev s g = Some x ->
  exists prev' s' g',
    suffix_of s' s /\ k prev' s' g' = Some x /\
    Forall (fun w => str_in w s = true) (literals r).
Proof.
  induction r as [w| |c|c|c|n c|r1 IH1|r1 IH1 r2 IH2]; intros k prev s g x;
    cbn [run literals].
  - intros H. destruct (lit_reads _ _ _ _ _ _ H) as [p [s' [-> Hk]]].
    exists p, s', g. split; [apply suffix_of_app|]. split; [exact Hk|].
    constructor; [apply str_in_here | constructor].
  - destruct (at_boundary prev s); [|discriminate]. intros H.
    exists prev, s, g. split; [apply suffix_of_refl|]. now split.
  - intros H. destruct (one_reads _ _ _ _ _ _ H) as [p [s' [Hs Hk]]].
    exists p, s', g. now repeat split.
  - intros H. destruct (one_reads _ _ _ _ _ _ H) as [p1 [s1 [Hs1 H1]]].
    destruct (star_greedy_reads _ _ _ _ _ _ H1) as [p2 [s2 [Hs2 H2]]].
    exists p2, s2, g. split; [eapply suffix_of_trans; eassumption|]. now split.
  - intros H. destruct (one_reads _ _ _ _ _ _ H) as [p1 [s1 [Hs1 H1]]].
    destruct (star_lazy_reads _ _ _ _ _ _ H1) as [p2 [s2 [Hs2 H2]]].
    exists p2, s2, g. split; [eapply suffix_of_trans; eassumption|]. now split.
  - intros H. destruct (at_least_reads _ _ _ _ _ _ _ H) as [p [s' [Hs Hk]]].
    exists p, s', g. now repeat split.
  - intros H. destruct (IH1 _ _ _ _ _ H) as [p [s' [g' [Hs [Hk Hl]]]]].
    exists p, s', (Some (consumed s s')). now repeat split.
  - intros H. destruct (IH1 _ _ _ _ _ H) as [p1 [s1 [g1 [Hs1 [H1 Hl1]]]]].
    destruct (IH2 _ _ _ _ _ H1) as [p2 [s2 [g2 [Hs2 [H2 Hl2]]]]].
    exists p2, s2, g2. split; [eapply suffix_of_trans; eassumption|].
    split; [exact H2|]. apply Forall_app. split; [exact Hl1|].
    eapply Forall_impl; [|exact Hl2]. intros w. now apply str_in_suffix.
Qed.
End Runs.

Lemma search_from_reads (r : re) (prev : option ascii) (s : string) (m : match_obj) :
  search_from r prev s = Some m ->
  Forall (fun w => str_in w s = true) (literals r).
Proof.
  revert prev. induction s as [|a s IH]; intros prev; cbn [search_from];
    unfold match_here.
  - destruct (run r _ prev EmptyString None) as [y|] eqn:E; [|discriminate].
    intros _. now destruct (run_reads _ _ _ _ _ _ E) as [_ [_ [_ [_ [_ H]]]]].
  - destruct (run r _ prev (String a s) None) as [y|] eqn:E.
    + intros _. now destruct (run_reads _ _ _ _ _ _ E) as [_ [_ [_ [_ [_ H]]]]].
    + intros H. eapply Forall_impl; [|exact (IH _ H)].
      intros w. apply str_in_cons.
Qed.

(** A pattern is found only in a text that holds each of its literals. *)
Lemma matches_reads (r : re) (s : string) :
  matches r s = true -> Forall (fun w => str_in w s = true) (literals r).
Proof.
  unfold matches, search.
  destruct (search_from r None s) as [m|] eqn:E; [|discriminate].
  intros _. eapply search_from_reads; eassumption.
Qed.

End ReFacts.

(* ================================================================== *)
(** ** The question classifier *)

Module ClassifierFacts.
Import Str StrFacts Indexer Chatbot Vocabulary Statements.

Lemma existsb_all_false {A : Type} (f : A -> bool) (l : list A) :
  Forall (fun x => f x = false) l -> existsb f l = false.
Proof.
  induction 1 as [|x l Hx _ IH]; simpl.
  - reflexivity.
  - now rewrite Hx, IH.
Qed.

Lemma all_false_of_existsb {A : Type} (f : A -> bool) (l : list A) :
  existsb f l = false -> Forall (fun x => f x = false) l.
Proof.
  induction l as [|x l IH]; simpl; intros H.
  - constructor.
  - apply orb_false_iff in H as [Hx Hl]. constructor; auto.
Qed.

(** A test for words that only grows from a suffix to the whole text. *)
Lemma existsb_mono {A : Type} (f g : A -> bool) (l : list A) :
  (forall x, f x = true -> g x = true) ->
  existsb f l = true -> existsb g l = true.
Proof.
  intros Hfg H. apply existsb_exists in H as [x [Hin Hx]].
  apply existsb_exists. exists x. auto.
Qed.

(** *** Truncation *)

Lemma truncate_at_marker_suffix (markers : list string) (question kept : string) :
  truncate_at_marker markers question = Some kept ->
  exists dropped, question = dropped ++ kept.
Proof.
  induction markers as [|marker rest IH]; cbn [truncate_at_marker];
    [discriminate|].
  destruct (str_in marker (lower question)); [|exact IH].
  destruct (rfind marker (lower question)) as [pos|]; [|exact IH].
  destruct (String.length question / 2 <? pos)%nat; [|exact IH].
  intros [= <-]. exists (take (pos - 50) question).
  symmetry. apply take_drop.
Qed.

(** What [_truncate_question] returns is a suffix of the question. *)
Lemma truncate_question_suffix (question : string) :
  exists dropped, question = dropped ++ truncate_question question.
Proof.
  unfold truncate_question.
  destruct (truncate_at_marker question_markers question) as [kept|] eqn:E.
  - eapply truncate_at_marker_suffix; eassumption.
  - unfold last_chars. exists (take (String.length question - 300) question).
    symmetry. apply take_drop.
Qed.

Lemma rfind_at_found (i pos : nat) (sub s : string) :
  rfind_at i sub s = Some pos -> str_in sub s = true.
Proof.
  revert i pos. induction s as [|c s IH]; intros i pos.
  - cbn [rfind_at str_in]. now destruct (String.prefix sub "").
  - cbn [rfind_at].
    change (str_in sub (String c s))
      with (if String.prefix sub (String c s) then true else str_in sub s).
    destruct (rfind_at (S i) sub s) as [j|] eqn:E.
    + intros _. rewrite (IH _ _ E). now destruct (String.prefix sub (String c s)).
    + now destruct (String.prefix sub (String c s)).
Qed.

(** What [_truncate_question] keeps: the text from 50 characters before
    the last occurrence of a marker that lies past the middle of the
    question, for the first marker of the list with such an occurrence;
    the last 300 characters when no marker has one. *)
Lemma truncate_question_kept (question : string) :
  (exists marker pos,
      In marker question_markers /\
      rfind marker (lower question) = Some pos /\
      (String.length question / 2 < pos)%nat /\
      truncate_question question = drop (pos - 50) question) \/
  (truncate_question question = last_chars 300 question /\
   forall marker pos,
     In marker question_markers ->
     rfind marker (lower question) = Some pos ->
     (pos <= String.length question / 2)%nat).
Proof.
  unfold truncate_question.
  induction question_markers as [|m rest IH]; cbn [truncate_at_marker].
  - right. split; [reflexivity|]. intros marker pos [].
  - destruct (rfind m (lower question)) as [pos|] eqn:Epos.
    + rewrite (rfind_at_found _ _ _ _ Epos).
      destruct (String.length question / 2 <? pos)%nat eqn:Ehalf.
      * left. exists m, pos. apply Nat.ltb_lt in Ehalf.
        repeat split; auto. now left.
      * apply Nat.ltb_ge in Ehalf. destruct IH as [[marker [p [Hin H]]]|[Hk Hall]].
        -- left. exists marker, p. split; [now right | exact H].
        -- right. split; [exact Hk|]. intros marker p [<-|Hin] Hp.
           ++ congruence.
           ++ eapply Hall; eassumption.
    + assert (E : (if str_in m (lower question)
                   then truncate_at_marker rest question
                   else truncate_at_marker rest question)
                  = truncate_at_marker rest question)
        by now destruct (str_in m (lower question)).
      rewrite E. destruct IH as [[marker [p [Hin H]]]|[Hk Hall]].
      * left. exists marker, p. split; [now right | exact H].
      * right. split; [exact Hk|]. intros marker p [<-|Hin] Hp.
        -- congruence.
        -- eapply Hall; eassumption.
Qed.

Lemma rfind_at_none (i : nat) (sub s : string) :
  rfind_at i sub s = None ->
  forall p, (p <= String.length s)%nat -> String.prefix sub (drop p s) = false.
Proof.
  revert i. induction s as [|c s IH]; intros i; cbn [rfind_at].
  - destruct (String.prefix sub "") eqn:E; [discriminate|].
    intros _ [|p] Hp; [exact E | simpl in Hp; lia].
  - destruct (rfind_at (S i) sub s) as [j|] eqn:Ej; [discriminate|].
    destruct (String.prefix sub (String c s)) eqn:E; [discriminate|].
    intros _ [|p] Hp; [exact E|].
    cbn [drop]. apply (IH _ Ej). simpl in Hp. lia.
Qed.

(** [rfind] gives the last occurrence: the word is read at the position
    found, and at no later position of the text. *)
Lemma rfind_at_last (i pos : nat) (sub s : string) :
  rfind_at i sub s = Some pos ->
  (i <= pos)%nat /\
  String.prefix sub (drop (pos - i) s) = true /\
  forall p, (pos - i < p)%nat -> (p <= String.length s)%nat ->
            String.prefix sub (drop p s) = false.
Proof.
  revert i pos. induction s as [|c s IH]; intros i pos; cbn [rfind_at].
  - destruct (String.prefix sub "") eqn:E; [|discriminate].
    intros [= <-]. rewrite Nat.sub_diag. split; [lia|]. split; [exact E|].
    intros p Hp Hl. simpl in Hl. lia.
  - destruct (rfind_at (S i) sub s) as [j|] eqn:Ej.
    + intros [= <-]. destruct (IH _ _ Ej) as [Hle [Hat Hlast]].
      split; [lia|].
      replace (j - i)%nat with (S (j - S i)) by lia. cbn [drop].
      split; [exact Hat|].
      intros [|p] Hp Hl; [lia|]. cbn [drop]. apply Hlast; simpl in Hl; lia.
    + destruct (String.prefix sub (String c s)) eqn:E; [|discriminate].
      intros [= <-]. rewrite Nat.sub_diag. split; [lia|]. split; [exact E|].
      intros [|p] Hp Hl; [lia|]. cbn [drop].
      apply (rfind_at_none _ _ _ Ej). simpl in Hl. lia.
Qed.

Lemma rfind_last (pos : nat) (sub s : string) :
  rfind sub s = Some pos ->
  String.prefix sub (drop pos s) = true /\
  forall p, (pos < p)%nat -> (p <= String.length s)%nat ->
            String.prefix sub (drop p s) = false.
Proof.
  intros H. destruct (rfind_at_last _ _ _ _ H) as [_ [Hat Hlast]].
  rewrite Nat.sub_0_r in *. now split.
Qed.

(** The loop over the markers stops at the first marker of the list whose
    last occurrence lies past the middle of the question. *)
Lemma truncate_at_marker_first (markers : list string) (question : string) :
  match truncate_at_marker markers question with
  | Some kept =>
      exists earlier marker later pos,
        markers = (earlier ++ marker :: later)%list /\
        Forall (not_past_middle question) earlier /\
        rfind marker (lower question) = Some pos /\
        (String.length question / 2 < pos)%nat /\
        kept = drop (pos - 50) question
  | None => Forall (not_past_middle question) markers
  end.
Proof.
  induction markers as [|m rest IH]; cbn [truncate_at_marker].
  - constructor.
  - assert (Skip : not_past_middle question m ->
                   match truncate_at_marker rest question with
                   | Some kept =>
                       exists earlier marker later pos,
                         m :: rest = (earlier ++ marker :: later)%list /\
                         Forall (not_past_middle question) earlier /\
                         rfind marker (lower question) = Some pos /\
                         (String.length question / 2 < pos)%nat /\
                         kept = drop (pos - 50) question
                   | None => Forall (not_past_middle question) (m :: rest)
                   end).
    { intros Hm. destruct (truncate_at_marker rest question) as [kept|].
      - destruct IH as [earlier [marker [later [pos [-> [He H]]]]]].
        exists (m :: earlier), marker, later, pos.
        split; [reflexivity|]. split; [now constructor | exact H].
      - now constructor. }
    destruct (str_in m (lower question)) eqn:Ein.
    + destruct (rfind m (lower question)) as [pos|] eqn:Epos.
      * destruct (String.length question / 2 <? pos)%nat eqn:Ehalf.
        -- apply Nat.ltb_lt in Ehalf.
           exists [], m, rest, pos. repeat split; auto.
        -- apply Nat.ltb_ge in Ehalf. apply Skip.
           intros p Hp. rewrite Epos in Hp. injection Hp as <-. exact Ehalf.
      * apply Skip. intros p Hp. rewrite Epos in Hp. discriminate.
    + apply Skip. intros p Hp. apply rfind_at_found in Hp. congruence.
Qed.

(** What [_truncate_question] keeps, in full: with the first marker of the
    list whose last occurrence in the lower-cased question lies past the
    middle, the text from 50 characters before that occurrence; without
    such a marker, the last 300 characters. *)
Lemma truncate_question_first_marker (question : string) :
  (exists earlier marker later pos,
      question_markers = (earlier ++ marker :: later)%list /\
      Forall (not_past_middle question) earlier /\
      rfind marker (lower question) = Some pos /\
      String.prefix marker (drop pos (lower question)) = true /\
      (forall p, (pos < p)%nat -> (p <= String.length (lower question))%nat ->
                 String.prefix marker (drop p (lower question)) = false) /\
      (String.length question / 2 < pos)%nat /\
      truncate_question question = drop (pos - 50) question) \/
  (Forall (not_past_middle question) question_markers /\
   truncate_question question = last_chars 300 question).
Proof.
  unfold truncate_question.
  pose proof (truncate_at_marker_first question_markers question) as H.
  destruct (truncate_at_marker question_markers question) as [kept|].
  - left. destruct H as [earlier [marker [later [pos [E [He [Hp [Hh ->]]]]]]]].
    destruct (rfind_last _ _ _ Hp) as [Hat Hlast].
    exists earlier, marker, later, pos. repeat split; auto.
  - right. now split.
Qed.

Lemma mentions_suffix (w dropped kept : string) :
  mentions w kept = true -> mentions w (dropped ++ kept) = true.
Proof.
  unfold mentions. rewrite lower_app. apply str_in_app_r.
Qed.

(** *** Domain relevance *)

Lemma existsb_str_in_suffix (words : list string) (dropped kept : string) :
  existsb (fun w => str_in w (lower kept)) words = true ->
  existsb (fun w => str_in w (lower (dropped ++ kept))) words = true.
Proof.
  apply existsb_mono. intros w. apply (mentions_suffix w dropped kept).
Qed.

Lemma is_cdp_related_suffix (dropped kept : string) :
  is_cdp_related kept = true -> is_cdp_related (dropped ++ kept) = true.
Proof.
  unfold is_cdp_related.
  destruct (existsb (fun cdp => str_in cdp (lower kept)) supported_cdps) eqn:E1.
  - intros _. now rewrite (existsb_str_in_suffix _ dropped kept E1).
  - destruct (existsb (fun keyword => str_in keyword (lower kept)) cdp_keywords)
      eqn:E2.
    + intros _. rewrite (existsb_str_in_suffix _ dropped kept E2).
      now destruct (existsb _ supported_cdps) in |- *.
    + intros E3.
      assert (G : existsb
                (fun pattern =>
                   str_in pattern (lower (dropped ++ kept)) &&
                   existsb (fun verb => str_in verb (lower (dropped ++ kept)))
                           action_verbs) how_to_patterns = true).
      { revert E3. apply existsb_mono. intros pattern H.
        apply andb_true_iff in H as [Hp Hv]. apply andb_true_iff. split.
        - now apply (mentions_suffix pattern dropped kept).
        - now apply existsb_str_in_suffix. }
      rewrite G.
      destruct (existsb _ supported_cdps) in |- *; [reflexivity|].
      now destruct (existsb _ cdp_keywords) in |- *.
Qed.

Lemma out_of_domain_not_related (question : string) :
  names_no_cdp question -> has_no_cdp_keyword question ->
  has_no_how_to_with_verb question ->
  is_cdp_related question = false.
Proof.
  unfold names_no_cdp, has_no_cdp_keyword, has_no_how_to_with_verb, mentions.
  intros H1 H2 H3. unfold is_cdp_related.
  rewrite (existsb_all_false _ _ H1), (existsb_all_false _ _ H2).
  apply existsb_all_false.
  eapply Forall_impl; [|exact H3]. cbv beta. intros pattern H.
  destruct (str_in pattern (lower question)); [|reflexivity].
  cbn [andb]. apply existsb_all_false. now apply H.
Qed.

(** C7. A question that names none of the four CDPs, holds none of the
    domain keywords and no how-to pattern together with an action verb is
    answered by the fixed refusal, and no query reaches the index; this
    holds whatever the index does, and for a long question too, since the
    truncation keeps a part of it. *)
Theorem out_of_domain_refused
        (search : string -> result (list SearchResult)) (question : string) :
  names_no_cdp question ->
  has_no_cdp_keyword question ->
  has_no_how_to_with_verb question ->
  answer_question search question = ([], Ok refusal).
Proof.
  intros H1 H2 H3.
  pose proof (out_of_domain_not_related question H1 H2 H3) as Hq.
  unfold answer_question.
  destruct (500 <? String.length question)%nat.
  - destruct (truncate_question_suffix question) as [dropped Hd].
    unfold respond.
    destruct (is_cdp_related (truncate_question question)) eqn:E.
    + apply (is_cdp_related_suffix dropped) in E. rewrite <- Hd in E. congruence.
    + reflexivity.
  - unfold respond. now rewrite Hq.
Qed.

Lemma out_of_domain_refused_witness :
  answer_question empty_search "What is the weather like in Paris today?"
  = ([], Ok refusal).
Proof.
  apply out_of_domain_refused.
  - repeat constructor.
  - repeat constructor.
  - repeat (constructor; [discriminate|]). constructor.
Defined.

(** *** Comparison detection *)

(** C6. A question with a generic segmentation phrase and none of the
    explicit comparison keywords "compare", "versus", "vs",
    "difference between" is not a comparison, whatever else it holds. *)
Theorem segmentation_phrase_is_not_comparison (question phrase : string) :
  In phrase non_comparison_phrases ->
  mentions phrase question = true ->
  Forall (fun keyword => mentions keyword question = false)
         explicit_comparison_keywords ->
  is_comparison_question question = false.
Proof.
  unfold mentions. intros Hin Hphrase Hnone. unfold is_comparison_question.
  assert (G : existsb
            (fun phrase =>
               str_in phrase (lower question) &&
               negb (existsb (fun keyword => str_in keyword (lower question))
                             explicit_comparison_keywords))
            non_comparison_phrases = true).
  { apply existsb_exists. exists phrase. split; [exact Hin|].
    rewrite Hphrase, (existsb_all_false _ _ Hnone). reflexivity. }
  now rewrite G.
Qed.

Lemma segmentation_phrase_is_not_comparison_witness :
  is_comparison_question
    "Which is the best audience segment in Lytics or mParticle?" = false.
Proof.
  apply (segmentation_phrase_is_not_comparison _ "audience segment").
  - simpl. auto.
  - reflexivity.
  - repeat constructor.
Defined.

(** *** Entity identification *)

Lemma find_none_all_false {A : Type} (f : A -> bool) (l : list A) :
  List.find f l = None -> Forall (fun x => f x = false) l.
Proof.
  induction l as [|x l IH]; simpl.
  - constructor.
  - destruct (f x) eqn:E; [discriminate|]. constructor; auto.
Qed.

(** C3, as the code has it. When the question holds a generic segmentation
    phrase, "segment" is never the identified CDP, whether or not a strict
    pattern matches it: the answer is the first other supported CDP the
    question names, and none when it names no other. *)
Theorem identify_cdp_with_segmentation_phrase (question : string) :
  has_segmentation_phrase (lower question) = true ->
  identify_cdp question
  = List.find (fun cdp => negb (cdp =? "segment") && mentions cdp question)
              supported_cdps /\
  identify_cdp question <> Some "segment".
Proof.
  intros Hphrase.
  assert (E : identify_cdp question
              = List.find (fun cdp => negb (cdp =? "segment") &&
                                      mentions cdp question) supported_cdps).
  { unfold identify_cdp, mentions. rewrite Hphrase.
    destruct (List.find _ supported_cdps) as [cdp|] eqn:F; [reflexivity|].
    apply find_none_all_false in F.
    unfold supported_cdps in *.
    repeat match goal with
           | H : Forall _ (_ :: _) |- _ => inversion H; subst; clear H
           end.
    simpl in *.
    repeat match goal with
           | H : str_in ?w ?s = false |- _ => rewrite H; clear H
           end.
    reflexivity. }
  split; [exact E|].
  rewrite E. intros F. apply find_some in F as [_ F].
  discriminate F.
Qed.

Lemma identify_cdp_with_segmentation_phrase_witness :
  has_segmentation_phrase (lower "How do I create an audience segment?") = true /\
  identify_cdp "How do I create an audience segment?" = None /\
  identify_cdp "How do I build an audience segment in Lytics?" = Some "lytics".
Proof.
  split; [reflexivity|]. split.
  - apply (proj1 (identify_cdp_with_segmentation_phrase
                    "How do I create an audience segment?" eq_refl)).
  - apply (proj1 (identify_cdp_with_segmentation_phrase
                    "How do I build an audience segment in Lytics?" eq_refl)).
Defined.

(** C3, as the specification words it, fails: this question holds the
    phrase "audience segment", names no other CDP, and matches "segment"
    by all of the strict patterns it could (a standalone word, and
    "segment cdp"); "segment" is suppressed all the same. *)
Lemma identify_cdp_ignores_strict_match :
  let question := "How do I create an audience segment in Segment CDP?" in
  has_segmentation_phrase (lower question) = true /\
  Re.matches (Re.cat [Re.Bnd; Re.Lit "segment"; Re.Bnd]) (lower question) = true /\
  Re.matches (Re.cat [Re.Lit "segment"; Re.Plus Re.Space; Re.Lit "cdp"])
             (lower question) = true /\
  identify_cdp question = None.
Proof.
  repeat split; reflexivity.
Qed.

End ClassifierFacts.

(* ================================================================== *)
(** ** Answering a question *)

Module AnswerFacts.
Import Str StrFacts ReFacts Indexer Chatbot Vocabulary Statements ClassifierFacts.

(** *** The compared CDPs *)

Lemma compared_cdps_select (question : string) :
  compared_cdps question
  = select (fun cdp => str_in cdp (lower question)) (inferred (lower question)).
Proof. reflexivity. Qed.

Lemma select_ext (named named' inf inf' : string -> bool) :
  (forall cdp, In cdp supported_cdps -> named cdp = named' cdp) ->
  (forall cdp, In cdp supported_cdps -> inf cdp = inf' cdp) ->
  select named inf = select named' inf'.
Proof.
  intros Hn Hi. unfold select.
  rewrite (filter_ext_in named named' supported_cdps Hn).
  generalize (filter named' supported_cdps) as mentioned. intros mentioned.
  assert (F : forall cdps start,
             (forall cdp, In cdp cdps -> inf cdp = inf' cdp) ->
             fold_left (fun mentioned cdp =>
                          if negb (Str.mem cdp mentioned) && inf cdp
                          then (mentioned ++ [cdp])%list else mentioned)
                       cdps start
             = fold_left (fun mentioned cdp =>
                            if negb (Str.mem cdp mentioned) && inf' cdp
                            then (mentioned ++ [cdp])%list else mentioned)
                         cdps start).
  { induction cdps as [|cdp cdps IH]; intros start H; cbn [fold_left].
    - reflexivity.
    - rewrite (H cdp) by (left; reflexivity).
      apply IH. intros c Hc. apply H. right. exact Hc. }
  now rewrite (F supported_cdps mentioned Hi).
Qed.

(** The selection looks at the two tests at the four supported CDPs only. *)
Lemma select_table (named inf : string -> bool) :
  select named inf
  = select (table (named "segment") (named "mparticle") (named "lytics")
                  (named "zeotap"))
           (table (inf "segment") (inf "mparticle") (inf "lytics") (inf "zeotap")).
Proof.
  apply select_ext; intros cdp H; unfold supported_cdps in H; simpl in H;
    repeat destruct H as [<-|H]; try reflexivity; contradiction.
Qed.

Lemma select_two (b1 b2 b3 b4 i1 i2 i3 i4 : bool) :
  List.length (select (table b1 b2 b3 b4) (table i1 i2 i3 i4)) = 2%nat.
Proof.
  destruct b1, b2, b3, b4, i1, i2, i3, i4; vm_compute; reflexivity.
Qed.

(** Whatever the question, two CDPs are compared. *)
Lemma compared_cdps_two (question : string) :
  List.length (compared_cdps question) = 2%nat.
Proof.
  rewrite compared_cdps_select, select_table. apply select_two.
Qed.

Ltac pick_literal :=
  match goal with
  | |- exists w, In w ?l /\ _ =>
      let rec try_each l :=
        match l with
        | ?x :: ?rest =>
            first [ exists x; split; [simpl; tauto | reflexivity]
                  | try_each rest ]
        end in
      try_each l
  end.

(** Each inference pattern of a CDP holds the name of the CDP among its
    literal characters, so it is found only in a question that names the
    CDP: the patterns never infer a CDP that the question does not name. *)
Lemma inferred_is_named (question_lower cdp : string) :
  In cdp supported_cdps ->
  inferred question_lower cdp = true ->
  str_in cdp question_lower = true.
Proof.
  intros Hcdp H. unfold inferred in H.
  apply existsb_exists in H as [pattern [Hp Hm]].
  apply matches_reads in Hm.
  assert (G : exists w, In w (literals pattern) /\ str_in cdp w = true).
  { unfold supported_cdps in Hcdp. simpl in Hcdp.
    repeat destruct Hcdp as [<-|Hcdp]; try contradiction;
      unfold inference_patterns in Hp; simpl in Hp;
      repeat destruct Hp as [<-|Hp]; try contradiction;
      simpl literals; pick_literal. }
  destruct G as [w [Hw Hin]].
  apply (str_in_trans cdp w question_lower Hin).
  exact (proj1 (Forall_forall _ _) Hm w Hw).
Qed.

Lemma unnamed_not_inferred (question : string) :
  Forall (fun cdp => mentions cdp question = false ->
                     inferred (lower question) cdp = false)
         supported_cdps.
Proof.
  apply Forall_forall. intros cdp Hcdp Hn.
  destruct (inferred (lower question) cdp) eqn:E; [|reflexivity].
  apply (inferred_is_named _ _ Hcdp) in E. unfold mentions in Hn. congruence.
Qed.

Lemma best_matches_answers (search : string -> result (list SearchResult))
      (comparison_features : string) (cdps : list string) :
  answers search ->
  exists all_results,
    best_matches search comparison_features cdps
    = (map (fun cdp => comparison_features ++ " in " ++ cdp) cdps, Ok all_results).
Proof.
  intros Hs. induction cdps as [|cdp rest [more IH]]; cbn [best_matches map].
  - exists []. reflexivity.
  - destruct (Hs (comparison_features ++ " in " ++ cdp)) as [results E].
    unfold indexer_search. rewrite E, IH. unfold bind, ret.
    eexists. cbn [app]. rewrite app_nil_r. reflexivity.
Qed.

(** With an index that answers, a comparison sends one query per compared
    CDP and returns a text. *)
Lemma handle_comparison_answers (search : string -> result (list SearchResult))
      (question : string) :
  answers search ->
  exists text,
    handle_comparison_question search question
    = (comparison_queries question, Ok text).
Proof.
  intros Hs. unfold handle_comparison_question, comparison_queries.
  destruct (best_matches_answers search (extract_comparison_features question)
              (compared_cdps question) Hs) as [all_results E].
  rewrite E. unfold bind, ret.
  destruct all_results; eexists; rewrite app_nil_r; reflexivity.
Qed.



(** *** Exceptions of the index *)

(** Outside the comparison path every exception of the index is caught:
    [answer_question] returns a text. *)
Lemma single_path_returns (search : string -> result (list SearchResult))
      (question : string) :
  is_comparison_question (effective question) = false ->
  exists sent text, answer_question search question = (sent, Ok text).
Proof.
  intros Hc. unfold answer_question. fold (effective question).
  unfold respond. rewrite Hc.
  destruct (is_cdp_related (effective question)); cbn [negb].
  - unfold indexer_search, bind, try_except, ret.
    destruct (search (effective question)) as [[|r rs]|e]; eauto.
  - unfold ret. eauto.
Qed.

(** On the comparison path nothing catches: an exception of the index at
    the first query leaves [answer_question]. *)
Lemma comparison_path_raises (search : string -> result (list SearchResult))
      (question : string) (e : exn) :
  is_cdp_related (effective question) = true ->
  is_comparison_question (effective question) = true ->
  (forall query, search query = Raise e) ->
  exists sent, answer_question search question = (sent, Raise e).
Proof.
  intros Hr Hc Hs. unfold answer_question. fold (effective question).
  unfold respond. rewrite Hr, Hc. cbn [negb].
  unfold handle_comparison_question.
  pose proof (compared_cdps_two (effective question)) as Hlen.
  destruct (compared_cdps (effective question)) as [|cdp rest];
    [discriminate Hlen|].
  cbn [best_matches]. unfold indexer_search. rewrite Hs.
  unfold bind. eauto.
Qed.

(** C1, at two questions of the repository's own test list, with an index
    whose search raises [e]. The single-entity question is answered by the
    apology. The comparison question is not: the exception leaves
    [answer_question] after the first of the two queries. *)
Theorem comparison_search_error_propagates (e : exn) :
  answer_question (fun _ => Raise e) "How do I set up a new source in Segment?"
  = (["How do I set up a new source in Segment?"], Ok apology) /\
  answer_question (fun _ => Raise e) "Segment vs mParticle for data collection"
  = (["data collection in segment"], Raise e).
Proof.
  split.
  - reflexivity.
  - change (answer_question (fun _ => Raise e)
              "Segment vs mParticle for data collection")
      with (respond (fun _ => Raise e) "Segment vs mParticle for data collection").
    unfold respond.
    replace (is_cdp_related "Segment vs mParticle for data collection")
      with true by reflexivity.
    replace (is_comparison_question "Segment vs mParticle for data collection")
      with true by reflexivity.
    reflexivity.
Qed.

(** *** Long questions *)

(** C10, as the code has it. A question of more than 500 characters is
    truncated to a suffix of itself.  When some marker of the list has its
    last occurrence (in the lower-cased question) past the middle of the
    question, the first such marker of the list decides: what is kept
    starts 50 characters before that last occurrence.  When no marker has,
    what is kept is the last 300 characters.  The answer is that of the
    classification and search run on the truncation, and it is the answer
    to the truncation as a question of its own when the truncation is at
    most 500 characters long. *)
Theorem long_question_answered_on_truncation
        (search : string -> result (list SearchResult)) (question : string) :
  (500 < String.length question)%nat ->
  answer_question search question = respond search (truncate_question question) /\
  (exists dropped, question = dropped ++ truncate_question question) /\
  ((exists earlier marker later pos,
       question_markers = (earlier ++ marker :: later)%list /\
       Forall (not_past_middle question) earlier /\
       rfind marker (lower question) = Some pos /\
       String.prefix marker (drop pos (lower question)) = true /\
       (forall p, (pos < p)%nat -> (p <= String.length (lower question))%nat ->
                  String.prefix marker (drop p (lower question)) = false) /\
       (String.length question / 2 < pos)%nat /\
       truncate_question question = drop (pos - 50) question) \/
   (Forall (not_past_middle question) question_markers /\
    truncate_question question = last_chars 300 question)) /\
  ((String.length (truncate_question question) <= 500)%nat ->
   answer_question search question
   = answer_question search (truncate_question question)).
Proof.
  intros Hlong.
  assert (E : answer_question search question
              = respond search (truncate_question question)).
  { unfold answer_question. apply Nat.ltb_lt in Hlong. now rewrite Hlong. }
  split; [exact E|]. split; [apply truncate_question_suffix|].
  split; [apply truncate_question_first_marker|].
  intros Hshort. rewrite E. unfold answer_question.
  destruct (500 <? String.length (truncate_question question))%nat eqn:F.
  - apply Nat.ltb_lt in F. lia.
  - reflexivity.
Qed.

Lemma long_question_answered_on_truncation_witness :
  (500 < String.length trailing_question)%nat /\
  truncate_question trailing_question
  = Str.repeat "x" 14 ++ " how do I set up a source in Segment?" /\
  answer_question empty_search trailing_question
  = answer_question empty_search (truncate_question trailing_question).
Proof.
  assert (Hlong : (500 < String.length trailing_question)%nat).
  { apply Nat.ltb_lt. vm_compute. reflexivity. }
  split; [exact Hlong|]. split; [vm_compute; reflexivity|].
  apply (long_question_answered_on_truncation empty_search trailing_question Hlong).
  apply Nat.leb_le. vm_compute. reflexivity.
Defined.

(** C10, as the specification words it, fails when the truncation is still
    longer than 500 characters: the answer to [long_question] comes from
    its truncation, which names Segment, while that truncation asked as a
    question is truncated again, to text that names nothing, and refused. *)
Lemma answer_differs_from_answer_of_truncation :
  (500 < String.length long_question)%nat /\
  answer_question empty_search long_question
  = ([truncate_question long_question], Ok no_results) /\
  answer_question empty_search (truncate_question long_question)
  = ([], Ok refusal) /\
  answer_question empty_search long_question
  <> answer_question empty_search (truncate_question long_question).
Proof.
  assert (E1 : answer_question empty_search long_question
               = ([truncate_question long_question], Ok no_results))
    by (vm_compute; reflexivity).
  assert (E2 : answer_question empty_search (truncate_question long_question)
               = ([], Ok refusal))
    by (vm_compute; reflexivity).
  split; [apply Nat.ltb_lt; vm_compute; reflexivity|].
  split; [exact E1|]. split; [exact E2|].
  rewrite E1, E2. discriminate.
Qed.

End AnswerFacts.

(* ================================================================== *)
(** ** The index *)

Module IndexerFacts.
Import Indexer Vocabulary Statements.

Local Open Scope Q_scope.

(** *** Sorted lists *)

Section Sorted.
Context {A : Type}.

Lemma StronglySorted_weaken (R R' : A -> A -> Prop) (l : list A) :
  (forall x y, R x y -> R' x y) ->
  StronglySorted R l -> StronglySorted R' l.
Proof.
  intros HR. induction 1 as [|x l Hl IH Hx]; constructor.
  - exact IH.
  - eapply Forall_impl; [|exact Hx]. apply HR.
Qed.

Lemma StronglySorted_skipn (R : A -> A -> Prop) (n : nat) (l : list A) :
  StronglySorted R l -> StronglySorted R (skipn n l).
Proof.
  revert l. induction n as [|n IH]; intros l Hl.
  - exact Hl.
  - destruct l as [|x l]; [constructor|].
    simpl. apply IH. now inversion Hl.
Qed.

Lemma StronglySorted_app_one (R : A -> A -> Prop) (l : list A) (x : A) :
  StronglySorted R l -> Forall (fun y => R y x) l ->
  StronglySorted R (l ++ [x]).
Proof.
  induction 1 as [|y l Hl IH Hy]; intros Hx; simpl.
  - repeat constructor.
  - inversion Hx as [|? ? Hyx Hlx]; subst. constructor.
    + now apply IH.
    + apply Forall_app. split; [exact Hy|]. now constructor.
Qed.

Lemma StronglySorted_rev (R : A -> A -> Prop) (l : list A) :
  StronglySorted R l -> StronglySorted (fun x y => R y x) (rev l).
Proof.
  induction 1 as [|x l Hl IH Hx]; simpl.
  - constructor.
  - apply StronglySorted_app_one; [exact IH|].
    apply Forall_rev. exact Hx.
Qed.

Lemma StronglySorted_filter (R : A -> A -> Prop) (f : A -> bool) (l : list A) :
  StronglySorted R l -> StronglySorted R (filter f l).
Proof.
  induction 1 as [|x l Hl IH Hx]; simpl.
  - constructor.
  - destruct (f x); [|exact IH]. constructor; [exact IH|].
    apply Forall_forall. intros y Hy. apply filter_In in Hy as [Hy _].
    revert y Hy. now apply Forall_forall.
Qed.

Lemma StronglySorted_Forall2 {B : Type} (P : A -> B -> Prop)
      (R : A -> A -> Prop) (R' : B -> B -> Prop) (l : list A) (l' : list B) :
  (forall x y x' y', P x x' -> P y y' -> R x y -> R' x' y') ->
  Forall2 P l l' -> StronglySorted R l -> StronglySorted R' l'.
Proof.
  intros HP. induction 1 as [|x x' l l' Hx Hl IH]; intros Hs.
  - constructor.
  - inversion Hs as [|? ? Hs' Hall]; subst. constructor; [now apply IH|].
    clear IH Hs Hs'. induction Hl as [|y y' l l' Hy Hl IH].
    + constructor.
    + inversion Hall; subst. constructor; eauto.
Qed.

Lemma Forall2_In_r {B : Type} (P : A -> B -> Prop) (l : list A) (l' : list B)
      (y : B) :
  Forall2 P l l' -> In y l' -> exists x, In x l /\ P x y.
Proof.
  induction 1 as [|x x' l l' Hx Hl IH]; intros Hy; [contradiction|].
  destruct Hy as [<-|Hy].
  - exists x. split; [now left | exact Hx].
  - destruct (IH Hy) as [z [Hz Pz]]. exists z. split; [now right | exact Pz].
Qed.

Lemma In_skipn (n : nat) (l : list A) (x : A) : In x (skipn n l) -> In x l.
Proof.
  intros H. rewrite <- (firstn_skipn n l). apply in_or_app. now right.
Qed.
End Sorted.

(** *** The threshold *)

Lemma relevant_above (s : Q) : relevant s = true <-> threshold < s.
Proof.
  unfold relevant. rewrite negb_true_iff. split.
  - intros H. apply Qnot_le_lt. intros Hle.
    apply Qle_bool_iff in Hle. congruence.
  - intros H. destruct (Qle_bool s threshold) eqn:E; [|reflexivity].
    apply Qle_bool_iff in E. exfalso. eapply Qlt_not_le; eassumption.
Qed.

(** Every score above the threshold is above one tenth. *)
Lemma threshold_above_tenth : 1 # 10 < threshold.
Proof. reflexivity. Qed.

(** *** Sorting by insertion *)

Lemma insert_pos_perm (a : list Q) (i : nat) (l : list nat) :
  Permutation (insert_pos a i l) (i :: l).
Proof.
  induction l as [|j l IH]; simpl.
  - reflexivity.
  - destruct (Qle_bool (nth j a 0) (nth i a 0)).
    + rewrite IH. apply perm_swap.
    + reflexivity.
Qed.

Lemma insert_pos_sorted (a : list Q) (i : nat) (l : list nat) :
  Forall (fun j => (j < i)%nat) l ->
  StronglySorted (stably_before a) l ->
  StronglySorted (stably_before a) (insert_pos a i l).
Proof.
  intros Hlt Hs. induction Hs as [|j l Hl IH Hj]; simpl.
  - repeat constructor.
  - inversion Hlt as [|? ? Hji Hlt']; subst.
    destruct (Qle_bool (nth j a 0) (nth i a 0)) eqn:E.
    + apply Qle_bool_iff in E. constructor; [now apply IH|].
      eapply Permutation_Forall; [symmetry; apply insert_pos_perm|].
      constructor; [|exact Hj].
      apply Qle_lteq in E as [E|E]; [now left | right; split; assumption].
    + assert (F : nth i a 0 < nth j a 0).
      { apply Qnot_le_lt. intros Hle. apply Qle_bool_iff in Hle. congruence. }
      constructor; [now constructor|].
      constructor; [now left|].
      eapply Forall_impl; [|exact Hj]. intros k [Hk|[Hk _]]; left.
      * eapply Qlt_trans; eassumption.
      * now rewrite <- Hk.
Qed.

Lemma insertion_upto (a : list Q) (m : nat) :
  let sorted := fold_left (fun sorted i => insert_pos a i sorted) (seq 0 m) [] in
  Permutation sorted (seq 0 m) /\ StronglySorted (stably_before a) sorted.
Proof.
  induction m as [|m [IHp IHs]]; cbn zeta.
  - split; constructor.
  - rewrite seq_S, fold_left_app. cbn [fold_left Nat.add].
    split.
    + rewrite insert_pos_perm, IHp.
      change (m :: seq 0 m) with ([m] ++ seq 0 m)%list.
      apply Permutation_app_comm.
    + apply insert_pos_sorted; [|exact IHs].
      eapply Permutation_Forall; [symmetry; exact IHp|].
      apply Forall_forall. intros j Hj. apply in_seq in Hj. lia.
Qed.

Lemma insertion_argsort_stable : stable insertion_argsort.
Proof.
  intros a. apply (insertion_upto a (List.length a)).
Qed.

Lemma insertion_argsort_sorts : sorts insertion_argsort.
Proof.
  intros a. split.
  - apply (insertion_upto a (List.length a)).
  - eapply StronglySorted_weaken; [|apply insertion_argsort_stable].
    intros i j [H|[H _]].
    + now apply Qlt_le_weak.
    + rewrite H. apply Qle_refl.
Qed.

(** *** Searching *)

Section Search.
Variable row : Type.
Variable fit_transform : list string -> result (list row).
Variable similarity : string -> row -> Q.
Variable argsort : list Q -> list nat.

(** C4. On an index that [load_documents] has not built, [search] fails
    with the [AttributeError] of reading [.shape] of [None], for every
    query and every [top_k]; it is not the [ValueError] that the method
    raises on purpose. *)
Theorem search_before_build_raises_attribute_error (query : string) (top_k : Z) :
  search row similarity argsort init query top_k
  = Raise (AttributeError "'NoneType' object has no attribute 'shape'") /\
  search row similarity argsort init query top_k
  <> Raise (ValueError "Documents not loaded. Call load_documents() first.").
Proof.
  split; [reflexivity | discriminate].
Qed.

(** The results of the loop are the relevant positions, in order. *)
Lemma collect_positions (docs : list Document) (a : list Q) (idxs : list nat)
      (results : list SearchResult) :
  collect docs a idxs = Ok results ->
  Forall2 (result_at docs a)
          (filter (fun idx => relevant (nth idx a 0)) idxs) results.
Proof.
  revert results. induction idxs as [|idx rest IH]; intros results; simpl.
  - intros [= <-]. constructor.
  - destruct (nth_error a idx) as [s|] eqn:Es; [|discriminate].
    rewrite (nth_error_nth _ _ 0 Es).
    destruct (relevant s); [|apply IH].
    destruct (nth_error docs idx) as [doc|] eqn:Ed; [|discriminate].
    destruct (collect docs a rest) as [more|]; [|discriminate].
    intros [= <-]. constructor; [|now apply IH].
    split; assumption.
Qed.

Lemma collect_returns (docs : list Document) (a : list Q) (idxs : list nat) :
  Forall (fun idx => (idx < List.length a)%nat /\ (idx < List.length docs)%nat)
         idxs ->
  exists results, collect docs a idxs = Ok results.
Proof.
  induction 1 as [|idx rest [Ha Hd] _ [more IH]]; simpl.
  - eauto.
  - destruct (nth_error a idx) as [s|] eqn:Es;
      [|apply nth_error_None in Es; lia].
    destruct (relevant s); [|eauto].
    destruct (nth_error docs idx) as [doc|] eqn:Ed;
      [|apply nth_error_None in Ed; lia].
    rewrite IH. eauto.
Qed.

(** The order of results of equal score is that of [np.argsort], read
    backwards.  The results of a search are the documents at the relevant
    positions of the ranking, and the ranking is the reverse of what
    [argsort] lists: under an [argsort] that keeps equal values in
    ascending position, results of equal score come in descending position
    of the corpus, the later document first. *)
Lemma equal_scores_ranked_by_descending_position
        (self : DocumentIndexer row) (matrix : list row) (query : string)
        (top_k : Z) (results : list SearchResult) :
  stable argsort ->
  tfidf_matrix self = Some matrix ->
  search row similarity argsort self query top_k = Ok results ->
  let a := map (similarity (preprocess_query query)) matrix in
  let positions := result_positions row similarity argsort matrix query top_k in
  Forall2 (result_at (documents self) a) positions results /\
  StronglySorted (ranked_before a) positions.
Proof.
  intros Hstable Hm Hs a positions. split.
  - unfold search in Hs. rewrite Hm in Hs.
    destruct (List.length matrix =? 0)%nat; [discriminate|].
    now apply collect_positions in Hs.
  - unfold positions, result_positions, top_indices_of, slice_from.
    fold a. apply StronglySorted_filter.
    eapply StronglySorted_weaken;
      [|apply StronglySorted_rev, StronglySorted_skipn, Hstable].
    cbv beta. intros i j [H|[H Hlt]]; [now left | right].
    split; [now symmetry | exact Hlt].
Qed.

(** Under an [argsort] that lists equal values in descending position,
    results of equal score come in ascending position of the corpus, the
    order of insertion. *)
Lemma equal_scores_ranked_by_ascending_position
      (self : DocumentIndexer row) (matrix : list row) (query : string)
      (top_k : Z) (results : list SearchResult) :
  ties_descending argsort ->
  tfidf_matrix self = Some matrix ->
  search row similarity argsort self query top_k = Ok results ->
  let a := map (similarity (preprocess_query query)) matrix in
  let positions := result_positions row similarity argsort matrix query top_k in
  Forall2 (result_at (documents self) a) positions results /\
  StronglySorted (ranked_by_insertion a) positions.
Proof.
  intros Hties Hm Hs a positions. split.
  - unfold search in Hs. rewrite Hm in Hs.
    destruct (List.length matrix =? 0)%nat; [discriminate|].
    now apply collect_positions in Hs.
  - unfold positions, result_positions, top_indices_of, slice_from.
    fold a. apply StronglySorted_filter.
    eapply StronglySorted_weaken;
      [|apply StronglySorted_rev, StronglySorted_skipn, Hties].
    cbv beta. intros i j [H|[H Hlt]]; [now left | right].
    split; [now symmetry | exact Hlt].
Qed.

Hypothesis argsort_sorts : sorts argsort.

Lemma argsort_length (a : list Q) : List.length (argsort a) = List.length a.
Proof.
  rewrite (Permutation_length (proj1 (argsort_sorts a))). apply length_seq.
Qed.

Lemma top_indices_in_range (a : list Q) (top_k : Z) :
  Forall (fun idx => (idx < List.length a)%nat) (top_indices_of argsort a top_k).
Proof.
  apply Forall_forall. intros idx H. unfold top_indices_of in H.
  apply in_rev in H. unfold slice_from in H. apply In_skipn in H.
  apply (Permutation_in _ (proj1 (argsort_sorts a))) in H.
  apply in_seq in H. lia.
Qed.

(** The ranking lists the positions by non-increasing similarity. *)
Lemma top_indices_sorted (a : list Q) (top_k : Z) :
  StronglySorted (fun i j => nth j a 0 <= nth i a 0)
                 (top_indices_of argsort a top_k).
Proof.
  unfold top_indices_of, slice_from.
  apply (StronglySorted_rev (fun i j => nth i a 0 <= nth j a 0)).
  apply StronglySorted_skipn. apply argsort_sorts.
Qed.

Lemma top_indices_length (a : list Q) (top_k : Z) :
  (1 <= top_k)%Z ->
  List.length (top_indices_of argsort a top_k)
  = Nat.min (Z.to_nat top_k) (List.length a).
Proof.
  intros Hk. unfold top_indices_of, slice_from.
  rewrite length_rev, length_skipn, argsort_length.
  destruct (- Z.min top_k (Z.of_nat (List.length a)) <? 0)%Z eqn:E.
  - apply Z.ltb_lt in E. lia.
  - apply Z.ltb_ge in E. lia.
Qed.

(** With a positive [top_k], the results of a search are at most
    [top_k] and at most the rows of the matrix; each has a score above
    the threshold; and they are listed by non-increasing score. *)
Lemma search_ranked (self : DocumentIndexer row) (query : string) (top_k : Z)
      (results : list SearchResult) :
  (1 <= top_k)%Z ->
  search row similarity argsort self query top_k = Ok results ->
  (Z.of_nat (List.length results) <= top_k)%Z /\
  (forall matrix, tfidf_matrix self = Some matrix ->
                  (List.length results <= List.length matrix)%nat) /\
  Forall (fun r => threshold < score r) results /\
  StronglySorted (fun r1 r2 => score r2 <= score r1) results.
Proof.
  intros Hk. unfold search.
  destruct (tfidf_matrix self) as [matrix|]; [|discriminate].
  destruct (List.length matrix =? 0)%nat; [discriminate|].
  set (a := map (similarity (preprocess_query query)) matrix).
  intros Hc. apply collect_positions in Hc.
  assert (Hlen : (List.length results
                  <= Nat.min (Z.to_nat top_k) (List.length a))%nat).
  { rewrite <- (Forall2_length Hc), <- (top_indices_length a top_k Hk).
    apply filter_length_le. }
  split; [lia|]. split.
  { intros m [= <-]. unfold a in Hlen. rewrite length_map in Hlen. lia. }
  split.
  - apply Forall_forall. intros r Hr.
    destruct (Forall2_In_r _ _ _ r Hc Hr) as [idx [Hidx [_ Hs]]].
    apply filter_In in Hidx as [_ Hrel].
    rewrite (nth_error_nth _ _ 0 Hs) in Hrel. now apply relevant_above.
  - eapply (StronglySorted_Forall2 (result_at (documents self) a));
      [|exact Hc|apply StronglySorted_filter, top_indices_sorted].
    intros i j r1 r2 [_ H1] [_ H2] Hij. cbv beta in Hij.
    now rewrite (nth_error_nth _ _ 0 H1), (nth_error_nth _ _ 0 H2) in Hij.
Qed.

(** A built index with one row per document answers every search. *)
Lemma search_returns (self : DocumentIndexer row) (matrix : list row)
      (query : string) (top_k : Z) :
  tfidf_matrix self = Some matrix ->
  matrix <> [] ->
  List.length (documents self) = List.length matrix ->
  exists results, search row similarity argsort self query top_k = Ok results.
Proof.
  intros Hm Hne Hlen. unfold search. rewrite Hm.
  destruct matrix as [|r matrix]; [congruence|]. cbn [List.length Nat.eqb].
  apply collect_returns.
  eapply Forall_impl; [|apply top_indices_in_range].
  intros idx H. split; [exact H|].
  rewrite length_map in H. rewrite Hlen. exact H.
Qed.

(** What [load_documents] leaves when it succeeds. *)
Lemma built_matrix (self : DocumentIndexer row) :
  built row fit_transform self ->
  exists texts matrix,
    fit_transform texts = Ok matrix /\
    List.length texts = List.length (documents self) /\
    tfidf_matrix self = Some matrix.
Proof.
  intros [loaded H]. unfold load_documents in H.
  destruct (fit_transform _) as [matrix|e] eqn:E; [|discriminate].
  injection H as <-. exists (map (fun doc => preprocess_for_how_to (content doc)) loaded), matrix.
  cbn [documents tfidf_matrix]. rewrite !length_map. auto.
Qed.

End Search.

(** Both tie orders are met by a sorting function.  Sorting by insertion
    keeps equal values in ascending position; [descending_ties_argsort]
    lists them in descending position; each is a permutation of the
    positions by non-decreasing value, which is all that is known of
    [np.argsort] with its default kind. *)
Lemma nth_opp (a : list Q) (i : nat) : nth i (map Qopp a) 0 = - nth i a 0.
Proof. exact (map_nth Qopp a 0 i). Qed.

Lemma descending_ties_argsort_ties : ties_descending descending_ties_argsort.
Proof.
  intros a. unfold descending_ties_argsort.
  eapply StronglySorted_weaken;
    [|apply StronglySorted_rev, (insertion_argsort_stable (map Qopp a))].
  cbv beta. unfold stably_before. intros i j. rewrite !nth_opp.
  intros [H|[H Hlt]].
  - left. apply Qopp_lt_compat in H. now rewrite !Qopp_involutive in H.
  - right. split; [|exact Hlt].
    rewrite <- (Qopp_involutive (nth i a 0)), <- (Qopp_involutive (nth j a 0)).
    now rewrite H.
Qed.

Lemma descending_ties_argsort_sorts : sorts descending_ties_argsort.
Proof.
  intros a. split.
  - unfold descending_ties_argsort.
    rewrite <- Permutation_rev.
    rewrite (proj1 (insertion_argsort_sorts (map Qopp a))).
    now rewrite length_map.
  - eapply StronglySorted_weaken; [|apply descending_ties_argsort_ties].
    intros i j [H|[H _]].
    + now apply Qlt_le_weak.
    + rewrite H. apply Qle_refl.
Qed.

(** On an index of two documents with the same similarity to the query,
    the two sorting functions give the two orders of the results: the
    document inserted second first with the one, the document inserted
    first first with the other. *)
Lemma equal_scores_order_follows_argsort :
  let self := two_docs_index (1 # 2) (1 # 2) in
  documents self = [set_processed doc_a; set_processed doc_b] /\
  search Q row_similarity insertion_argsort self "create a source" 3
  = Ok [mkResult (set_processed doc_b) (1 # 2);
        mkResult (set_processed doc_a) (1 # 2)] /\
  search Q row_similarity descending_ties_argsort self "create a source" 3
  = Ok [mkResult (set_processed doc_a) (1 # 2);
        mkResult (set_processed doc_b) (1 # 2)].
Proof.
  split; [reflexivity|]. split; reflexivity.
Qed.

(** C2, at [top_k = 0] and below. The slice [[-top_k:]] of the ranking is
    the whole ranking when [top_k] is 0, and drops [-top_k] positions
    when [top_k] is negative: on a built index of two documents with
    similarities 1/2 and 3/4, a search for the top 0 returns both
    documents, and a search for the top -1 returns one. *)
Theorem search_top_k_zero_returns_all :
  let self := two_docs_index (1 # 2) (3 # 4) in
  built Q (fit_rows [1 # 2; 3 # 4]) self /\
  search Q row_similarity insertion_argsort self "create a source" 0
  = Ok [mkResult (set_processed doc_b) (3 # 4);
        mkResult (set_processed doc_a) (1 # 2)] /\
  search Q row_similarity insertion_argsort self "create a source" (-1)
  = Ok [mkResult (set_processed doc_b) (3 # 4)].
Proof.
  split; [exists [doc_a; doc_b]; reflexivity|].
  split; reflexivity.
Qed.

End IndexerFacts.

(* ================================================================== *)
(** ** More on the index *)

Module IndexerMore.
Import Str StrFacts ReFacts Indexer Vocabulary Statements IndexerFacts.

Local Open Scope Q_scope.

Section Lists.
Context {A : Type}.

Lemma Forall2_In_l {B : Type} (P : A -> B -> Prop) (l : list A) (l' : list B)
      (x : A) :
  Forall2 P l l' -> In x l -> exists y, In y l' /\ P x y.
Proof.
  induction 1 as [|a b l l' Hab Hl IH]; intros Hx; [contradiction|].
  destruct Hx as [<-|Hx].
  - exists b. split; [now left | exact Hab].
  - destruct (IH Hx) as [y [Hy Py]]. exists y. split; [now right | exact Py].
Qed.

Lemma StronglySorted_app_between (R : A -> A -> Prop) (l1 l2 : list A) :
  StronglySorted R (l1 ++ l2) ->
  forall x y, In x l1 -> In y l2 -> R x y.
Proof.
  induction l1 as [|a l1 IH]; simpl; intros Hs x y Hx Hy; [contradiction|].
  inversion Hs as [|? ? Hs' Hall]; subst. destruct Hx as [<-|Hx].
  - apply (proj1 (Forall_forall _ _) Hall). apply in_or_app. now right.
  - now apply IH.
Qed.

Lemma NoDup_skipn (n : nat) (l : list A) : NoDup l -> NoDup (skipn n l).
Proof.
  intros H. rewrite <- (firstn_skipn n l) in H.
  now apply NoDup_app_remove_l in H.
Qed.

Lemma filter_all (f : A -> bool) (l : list A) :
  Forall (fun x => f x = true) l -> filter f l = l.
Proof.
  induction 1 as [|x l Hx _ IH]; simpl; [reflexivity|].
  now rewrite Hx, IH.
Qed.
End Lists.

(** *** Patterns that need a character the text lacks *)

Lemma any_char_cons (p : ascii -> bool) (a : ascii) (s : string) :
  any_char p s = true -> any_char p (String a s) = true.
Proof. simpl. intros ->. apply orb_true_r. Qed.

Lemma any_char_suffix (p : ascii -> bool) (s' s : string) :
  suffix_of s' s -> any_char p s' = true -> any_char p s = true.
Proof.
  intros [pre ->] H. induction pre as [|a pre IH]; simpl.
  - exact H.
  - rewrite IH. apply orb_true_r.
Qed.

Section Needs.
Context {R : Type}.

Lemma one_needs (c : Re.cls) (k : @Re.cont R) prev s g (x : R) :
  Re.one c k prev s g = Some x ->
  any_char (Re.cls_ok c) s = true /\
  exists prev' s', suffix_of s' s /\ k prev' s' g = Some x.
Proof.
  unfold Re.one. destruct s as [|a s]; [discriminate|].
  destruct (Re.cls_ok c a) eqn:E; [|discriminate]. intros H. split.
  - simpl. now rewrite E.
  - exists (Some a), s. split; [apply suffix_of_cons, suffix_of_refl | exact H].
Qed.

(** A run of a pattern that succeeds has read, for each class the pattern
    requires, a character of that class. *)
Lemma run_needs (r : Re.re) : forall (k : @Re.cont R) prev s g (x : R),
  Re.run r k prev s g = Some x ->
  exists prev' s' g',
    suffix_of s' s /\ k prev' s' g' = Some x /\
    Forall (fun c => any_char (Re.cls_ok c) s = true) (required_classes r).
Proof.
  induction r as [w| |c|c|c|n c|r1 IH1|r1 IH1 r2 IH2]; intros k prev s g x H;
    cbn [required_classes].
  - destruct (run_reads _ _ _ _ _ _ H) as [p [s' [g' [Hs [Hk _]]]]].
    exists p, s', g'. now repeat split.
  - destruct (run_reads _ _ _ _ _ _ H) as [p [s' [g' [Hs [Hk _]]]]].
    exists p, s', g'. now repeat split.
  - cbn [Re.run] in H. destruct (one_needs _ _ _ _ _ _ H) as [Hc [p [s' [Hs Hk]]]].
    exists p, s', g. repeat split; auto.
  - cbn [Re.run] in H. destruct (one_needs _ _ _ _ _ _ H) as [Hc [p [s1 [Hs1 H1]]]].
    destruct (star_greedy_reads _ _ _ _ _ _ H1) as [p2 [s2 [Hs2 H2]]].
    exists p2, s2, g. split; [eapply suffix_of_trans; eassumption|]. split; auto.
  - cbn [Re.run] in H. destruct (one_needs _ _ _ _ _ _ H) as [Hc [p [s1 [Hs1 H1]]]].
    destruct (star_lazy_reads _ _ _ _ _ _ H1) as [p2 [s2 [Hs2 H2]]].
    exists p2, s2, g. split; [eapply suffix_of_trans; eassumption|]. split; auto.
  - destruct n as [|n].
    + destruct (run_reads _ _ _ _ _ _ H) as [p [s' [g' [Hs [Hk _]]]]].
      exists p, s', g'. now repeat split.
    + cbn [Re.run Re.at_least] in H.
      destruct (one_needs _ _ _ _ _ _ H) as [Hc [p [s1 [Hs1 H1]]]].
      destruct (at_least_reads _ _ _ _ _ _ _ H1) as [p2 [s2 [Hs2 H2]]].
      exists p2, s2, g. split; [eapply suffix_of_trans; eassumption|]. split; auto.
  - cbn [Re.run] in H. destruct (IH1 _ _ _ _ _ H) as [p [s' [g' [Hs [Hk Hl]]]]].
    exists p, s', (Some (Re.consumed s s')). now repeat split.
  - cbn [Re.run] in H.
    destruct (IH1 _ _ _ _ _ H) as [p1 [s1 [g1 [Hs1 [H1 Hl1]]]]].
    destruct (IH2 _ _ _ _ _ H1) as [p2 [s2 [g2 [Hs2 [H2 Hl2]]]]].
    exists p2, s2, g2. split; [eapply suffix_of_trans; eassumption|].
    split; [exact H2|]. apply Forall_app. split; [exact Hl1|].
    eapply Forall_impl; [|exact Hl2]. intros c. now apply any_char_suffix.
Qed.
End Needs.

Lemma search_from_needs (r : Re.re) (prev : option ascii) (s : string)
      (m : Re.match_obj) :
  Re.search_from r prev s = Some m ->
  Forall (fun c => any_char (Re.cls_ok c) s = true) (required_classes r).
Proof.
  revert prev. induction s as [|a s IH]; intros prev; cbn [Re.search_from];
    unfold Re.match_here.
  - destruct (Re.run r _ prev EmptyString None) as [y|] eqn:E; [|discriminate].
    intros _. now destruct (run_needs _ _ _ _ _ _ E) as [_ [_ [_ [_ [_ H]]]]].
  - destruct (Re.run r _ prev (String a s) None) as [y|] eqn:E.
    + intros _. now destruct (run_needs _ _ _ _ _ _ E) as [_ [_ [_ [_ [_ H]]]]].
    + intros H. eapply Forall_impl; [|exact (IH _ H)].
      intros c. apply any_char_cons.
Qed.

(** A pattern that requires a class finds nothing in a text without a
    character of the class. *)
Lemma findall_without_class (r : Re.re) (c : Re.cls) (s : string) :
  In c (required_classes r) ->
  any_char (Re.cls_ok c) s = false ->
  Re.findall r s = [].
Proof.
  intros Hc Hs. unfold Re.findall. cbn [Re.findall_from].
  destruct (Re.search_from r None s) as [m|] eqn:E; [|reflexivity].
  apply search_from_needs in E.
  rewrite (proj1 (Forall_forall _ _) E c Hc) in Hs. discriminate.
Qed.

Lemma lower_char_not_upper (a : ascii) : is_upper (lower_char a) = false.
Proof.
  destruct a as [[] [] [] [] [] [] [] []]; reflexivity.
Qed.

Lemma lower_has_no_upper (s : string) : any_char is_upper (lower s) = false.
Proof.
  induction s as [|a s IH]; simpl; [reflexivity|].
  now rewrite lower_char_not_upper, IH.
Qed.

(** *** [_preprocess_for_how_to] *)

Lemma add_weight_appends (processed : string) (pattern : Re.re) :
  exists added, add_weight processed pattern = processed ++ added.
Proof.
  unfold add_weight. destruct (Re.findall pattern processed) as [|w ws].
  - exists EmptyString. clear. induction processed; simpl; congruence.
  - eexists. reflexivity.
Qed.

Lemma fold_add_weight_appends (patterns : list Re.re) (processed : string) :
  exists added, fold_left add_weight patterns processed = processed ++ added.
Proof.
  revert processed. induction patterns as [|p ps IH]; intros processed; simpl.
  - exists EmptyString. clear. induction processed; simpl; congruence.
  - destruct (add_weight_appends processed p) as [a1 ->].
    destruct (IH (processed ++ a1)) as [a2 ->].
    exists (a1 ++ a2). apply append_assoc.
Qed.

(** X7. Preprocessing a document only appends: the result starts with the
    lower-cased content, whole and in place, and what follows it is the
    text added for weight. *)
Theorem preprocess_for_how_to_appends (content : string) :
  exists added, preprocess_for_how_to content = lower content ++ added.
Proof.
  unfold preprocess_for_how_to.
  destruct (fold_add_weight_appends step_patterns (lower content)) as [a1 ->].
  destruct (fold_add_weight_appends how_to_patterns (lower content ++ a1))
    as [a2 ->].
  exists (a1 ++ a2). apply append_assoc.
Qed.

(** X8. The pattern of numbered steps, a number, a dot, white space and a
    capital letter, is matched against text that was lower-cased first,
    so it never matches: no document gets weight for its numbered steps,
    and the preprocessing is that of the other patterns alone. *)
Theorem numbered_steps_never_weighted (content : string) :
  Re.findall (Re.cat [Re.Plus Re.Digit; Re.Lit "."; Re.Plus Re.Space;
                      Re.One Re.UpperAZ])
             (lower content) = [] /\
  preprocess_for_how_to content
  = fold_left add_weight (tl step_patterns ++ how_to_patterns)%list
              (lower content).
Proof.
  assert (E : Re.findall (Re.cat [Re.Plus Re.Digit; Re.Lit "."; Re.Plus Re.Space;
                                  Re.One Re.UpperAZ])
                         (lower content) = []).
  { apply (findall_without_class _ Re.UpperAZ).
    - simpl. auto.
    - apply lower_has_no_upper. }
  split; [exact E|].
  assert (W : add_weight (lower content)
                (Re.cat [Re.Plus Re.Digit; Re.Lit "."; Re.Plus Re.Space;
                         Re.One Re.UpperAZ]) = lower content)
    by (unfold add_weight; now rewrite E).
  unfold preprocess_for_how_to. rewrite fold_left_app.
  change (fold_left add_weight step_patterns (lower content))
    with (fold_left add_weight (tl step_patterns)
            (add_weight (lower content)
               (Re.cat [Re.Plus Re.Digit; Re.Lit "."; Re.Plus Re.Space;
                        Re.One Re.UpperAZ]))).
  now rewrite W.
Qed.

(** *** [_preprocess_query] and [search] *)

Lemma preprocess_query_lower (x : string) :
  preprocess_query (lower x) = preprocess_query x.
Proof. unfold preprocess_query. now rewrite lower_idem. Qed.

Lemma lower_preprocess_query (x : string) :
  lower (preprocess_query x) = preprocess_query x.
Proof.
  unfold preprocess_query.
  destruct (negb (str_in "how to" (lower x)) && negb (str_in "how do i" (lower x)));
    [|apply lower_idem].
  destruct (existsb (fun verb => str_in verb (lower x)) action_verbs);
    [|apply lower_idem].
  rewrite lower_app, lower_idem. reflexivity.
Qed.

(** X10. Query preprocessing has a normal form: its result is lower-case,
    it does not depend on the case of the query, and preprocessing a
    result again changes nothing, for every query. *)
Theorem preprocess_query_normal_form (x : string) :
  lower (preprocess_query x) = preprocess_query x /\
  preprocess_query (lower x) = preprocess_query x /\
  preprocess_query (preprocess_query x) = preprocess_query x.
Proof.
  split; [apply lower_preprocess_query|].
  split; [apply preprocess_query_lower|].
  apply QueryFacts.preprocess_query_idempotent.
Qed.

Section Search.
Variable row : Type.
Variable fit_transform : list string -> result (list row).
Variable similarity : string -> row -> Q.
Variable argsort : list Q -> list nat.
Hypothesis argsort_sorts : sorts argsort.

(** X1. With a [top_k] of at least 1 and an [np.argsort] that sorts, a
    search that returns gives at most [top_k] results and at most one per
    row of the matrix, each with a score above the threshold (the binary64
    value of 0.1, itself above one tenth), listed by non-increasing
    score. *)
Theorem search_top_k_ranked (self : DocumentIndexer row) (matrix : list row)
        (query : string) (top_k : Z) (results : list SearchResult) :
  (1 <= top_k)%Z ->
  tfidf_matrix self = Some matrix ->
  search row similarity argsort self query top_k = Ok results ->
  (Z.of_nat (List.length results) <= top_k)%Z /\
  (List.length results <= List.length matrix)%nat /\
  Forall (fun r => 1 # 10 < score r) results /\
  StronglySorted (fun r1 r2 => score r2 <= score r1) results.
Proof.
  intros Hk Hm Hs.
  destruct (search_ranked row similarity argsort argsort_sorts
              self query top_k results Hk Hs) as [H1 [H2 [H3 H4]]].
  split; [exact H1|]. split; [now apply H2|]. split; [|exact H4].
  eapply Forall_impl; [|exact H3]. intros r Hr.
  eapply Qlt_trans; [apply threshold_above_tenth | exact Hr].
Qed.

Lemma top_indices_skipn (a : list Q) (top_k : Z) :
  (1 <= top_k)%Z ->
  top_indices_of argsort a top_k
  = rev (skipn (List.length a - Nat.min (Z.to_nat top_k) (List.length a))
               (argsort a)).
Proof.
  intros Hk. unfold top_indices_of, slice_from.
  rewrite (argsort_length argsort argsort_sorts).
  destruct (- Z.min top_k (Z.of_nat (List.length a)) <? 0)%Z eqn:E.
  - apply Z.ltb_lt in E. do 2 f_equal. lia.
  - apply Z.ltb_ge in E. do 2 f_equal. lia.
Qed.

(** X2. The search keeps the best: with a [top_k] of at least 1, a corpus
    position whose similarity is above the threshold is either returned,
    or left out because [top_k] results were returned that all score at
    least as much. *)
Theorem search_keeps_the_best (self : DocumentIndexer row) (matrix : list row)
        (query : string) (top_k : Z) (results : list SearchResult) (j : nat) :
  (1 <= top_k)%Z ->
  tfidf_matrix self = Some matrix ->
  search row similarity argsort self query top_k = Ok results ->
  let a := map (similarity (preprocess_query query)) matrix in
  (j < List.length matrix)%nat ->
  relevant (nth j a 0) = true ->
  (exists r, In r results /\ result_at (documents self) a j r) \/
  (List.length results = Z.to_nat top_k /\
   Forall (fun r => nth j a 0 <= score r) results).
Proof.
  intros Hk Hm Hs a Hj Hrel.
  unfold search in Hs. rewrite Hm in Hs.
  destruct (List.length matrix =? 0)%nat; [discriminate|].
  fold a in Hs. apply collect_positions in Hs.
  destruct (in_dec Nat.eq_dec j (top_indices_of argsort a top_k)) as [Hin|Hout].
  - left. apply (Forall2_In_l _ _ _ j Hs). apply filter_In. now split.
  - right. rewrite (top_indices_skipn a top_k Hk) in Hs, Hout.
    set (s := (List.length a - Nat.min (Z.to_nat top_k) (List.length a))%nat) in *.
    destruct (argsort_sorts a) as [Hperm Hsorted].
    assert (Hja : (j < List.length a)%nat) by (unfold a; now rewrite length_map).
    assert (Hfirst : In j (firstn s (argsort a))).
    { assert (H : In j (argsort a)).
      { apply (Permutation_in _ (Permutation_sym Hperm)). apply in_seq. lia. }
      rewrite <- (firstn_skipn s (argsort a)) in H.
      apply in_app_or in H as [H|H]; [exact H|].
      exfalso. apply Hout. now apply -> in_rev. }
    assert (Hbelow : forall i, In i (rev (skipn s (argsort a))) ->
                               nth j a 0 <= nth i a 0).
    { intros i Hi. apply in_rev in Hi.
      rewrite <- (firstn_skipn s (argsort a)) in Hsorted.
      exact (StronglySorted_app_between _ _ _ Hsorted j i Hfirst Hi). }
    assert (Hall : Forall (fun i => relevant (nth i a 0) = true)
                          (rev (skipn s (argsort a)))).
    { apply Forall_forall. intros i Hi. apply relevant_above.
      eapply Qlt_le_trans; [apply relevant_above; exact Hrel | now apply Hbelow]. }
    rewrite (filter_all _ _ Hall) in Hs. split.
    + rewrite <- (Forall2_length Hs), length_rev, length_skipn,
        (argsort_length argsort argsort_sorts).
      assert (s <> 0)%nat by (intros E; rewrite E in Hfirst; contradiction).
      unfold s in *. lia.
    + apply Forall_forall. intros r Hr.
      destruct (Forall2_In_r _ _ _ r Hs Hr) as [i [Hi [_ Hscore]]].
      rewrite <- (nth_error_nth _ _ 0 Hscore). now apply Hbelow.
Qed.

(** X3. The results of a search are documents of the corpus, each with the
    similarity of its own row, and no corpus position is returned twice. *)
Theorem search_results_distinct (self : DocumentIndexer row) (matrix : list row)
        (query : string) (top_k : Z) (results : list SearchResult) :
  tfidf_matrix self = Some matrix ->
  search row similarity argsort self query top_k = Ok results ->
  let a := map (similarity (preprocess_query query)) matrix in
  let positions := result_positions row similarity argsort matrix query top_k in
  NoDup positions /\
  Forall2 (result_at (documents self) a) positions results /\
  Forall (fun r => In (document r) (documents self)) results.
Proof.
  intros Hm Hs a positions.
  assert (Hc : Forall2 (result_at (documents self) a) positions results).
  { unfold search in Hs. rewrite Hm in Hs.
    destruct (List.length matrix =? 0)%nat; [discriminate|].
    now apply collect_positions in Hs. }
  split; [|split; [exact Hc|]].
  - unfold positions, result_positions, top_indices_of, slice_from. fold a.
    apply NoDup_filter, NoDup_rev, NoDup_skipn.
    apply (Permutation_NoDup (Permutation_sym (proj1 (argsort_sorts a)))).
    apply seq_NoDup.
  - apply Forall_forall. intros r Hr.
    destruct (Forall2_In_r _ _ _ r Hc Hr) as [i [_ [Hdoc _]]].
    eapply nth_error_In. exact Hdoc.
Qed.

Lemma built_index_answers (self : DocumentIndexer row) (query : string)
      (top_k : Z) :
  one_row_per_text fit_transform ->
  built row fit_transform self ->
  documents self <> [] ->
  exists results, search row similarity argsort self query top_k = Ok results.
Proof.
  intros Hfit Hbuilt Hne.
  destruct (built_matrix row fit_transform self Hbuilt)
    as [texts [matrix [Hf [Hlen Hm]]]].
  apply Hfit in Hf.
  apply (search_returns row similarity argsort argsort_sorts self matrix);
    [exact Hm | | congruence].
  intros ->. destruct (documents self); [congruence | simpl in *; lia].
Qed.

(** X5. On an index that [load_documents] has built from a corpus that is
    not empty, with one matrix row per text, a search returns for every
    query and every [top_k]: it raises nothing, and it keeps to the
    bounds of a ranked search when [top_k] is at least 1. *)
Theorem search_on_built_index_returns (self : DocumentIndexer row)
        (query : string) (top_k : Z) :
  one_row_per_text fit_transform ->
  built row fit_transform self ->
  documents self <> [] ->
  exists results,
    search row similarity argsort self query top_k = Ok results /\
    ((1 <= top_k)%Z ->
     (Z.of_nat (List.length results) <= top_k)%Z /\
     (List.length results <= List.length (documents self))%nat).
Proof.
  intros Hfit Hbuilt Hne.
  destruct (built_index_answers self query top_k Hfit Hbuilt Hne) as [results E].
  exists results. split; [exact E|]. intros Hk.
  destruct (search_ranked row similarity argsort argsort_sorts
              self query top_k results Hk E) as [H1 [H2 _]].
  split; [exact H1|].
  destruct (built_matrix row fit_transform self Hbuilt)
    as [texts [matrix [Hf [Hlen Hm]]]].
  apply Hfit in Hf. specialize (H2 matrix Hm). lia.
Qed.


(** X4. A search does not depend on the case of the query, and searching
    with a preprocessed query is searching with the query: the rewriting
    of [_preprocess_query] is applied once however the query comes. *)
Theorem search_query_normalised (self : DocumentIndexer row) (query : string)
        (top_k : Z) :
  search row similarity argsort self (lower query) top_k
  = search row similarity argsort self query top_k /\
  search row similarity argsort self (preprocess_query query) top_k
  = search row similarity argsort self query top_k.
Proof.
  unfold search.
  now rewrite preprocess_query_lower, QueryFacts.preprocess_query_idempotent.
Qed.

(** X6. When fitting the matrix raises, the exception leaves
    [load_documents] with the new documents already stored and the matrix
    as it was; on a fresh indexer the matrix is still missing, so every
    later search fails on it. *)
Theorem failed_load_keeps_documents (loaded : list Document)
        (self : DocumentIndexer row) (e : exn) :
  fit_transform (map (fun doc => preprocess_for_how_to (content doc)) loaded)
  = Raise e ->
  let after := fst (load_documents row fit_transform loaded self) in
  snd (load_documents row fit_transform loaded self) = Raise e /\
  documents after = map set_processed loaded /\
  tfidf_matrix after = tfidf_matrix self /\
  (tfidf_matrix self = None ->
   forall query top_k,
     search row similarity argsort after query top_k
     = Raise (AttributeError "'NoneType' object has no attribute 'shape'")).
Proof.
  intros Hfit. unfold load_documents. rewrite Hfit. cbn [fst snd].
  repeat split. intros Hnone query top_k. unfold search.
  cbn [tfidf_matrix]. now rewrite Hnone.
Qed.

End Search.

Lemma fit_rows_one_row_per_text (rows : list Q) :
  one_row_per_text (fit_rows rows).
Proof.
  intros texts matrix. unfold fit_rows.
  destruct (Nat.eqb_spec (List.length texts) (List.length rows)) as [E|E];
    [|discriminate].
  intros [= <-]. now symmetry.
Qed.

Lemma two_docs_index_built (s_a s_b : Q) :
  built Q (fit_rows [s_a; s_b]) (two_docs_index s_a s_b).
Proof. exists [doc_a; doc_b]. reflexivity. Qed.

Lemma search_top_k_ranked_witness :
  let results := [mkResult (set_processed doc_b) (3 # 4)] in
  search Q row_similarity insertion_argsort (two_docs_index (1 # 2) (3 # 4))
         "create a source" 1 = Ok results /\
  (Z.of_nat (List.length results) <= 1)%Z /\
  (List.length results <= 2)%nat /\
  Forall (fun r => 1 # 10 < score r) results /\
  StronglySorted (fun r1 r2 => score r2 <= score r1) results.
Proof.
  split; [reflexivity|].
  apply (search_top_k_ranked Q row_similarity insertion_argsort
           insertion_argsort_sorts (two_docs_index (1 # 2) (3 # 4))
           [1 # 2; 3 # 4] "create a source" 1).
  - lia.
  - reflexivity.
  - reflexivity.
Defined.

Lemma search_keeps_the_best_witness :
  let results := [mkResult (set_processed doc_b) (3 # 4)] in
  (exists r, In r results /\
             result_at (documents (two_docs_index (1 # 2) (3 # 4)))
                       [1 # 2; 3 # 4] 0 r) \/
  (List.length results = 1%nat /\ Forall (fun r => 1 # 2 <= score r) results).
Proof.
  apply (search_keeps_the_best Q row_similarity insertion_argsort
           insertion_argsort_sorts (two_docs_index (1 # 2) (3 # 4))
           [1 # 2; 3 # 4] "create a source" 1 _ 0%nat).
  - lia.
  - reflexivity.
  - reflexivity.
  - simpl. lia.
  - reflexivity.
Defined.

Lemma search_results_distinct_witness :
  let self := two_docs_index (1 # 2) (3 # 4) in
  let results := [mkResult (set_processed doc_b) (3 # 4);
                  mkResult (set_processed doc_a) (1 # 2)] in
  NoDup [1%nat; 0%nat] /\
  Forall2 (result_at (documents self) [1 # 2; 3 # 4]) [1%nat; 0%nat] results /\
  Forall (fun r => In (document r) (documents self)) results.
Proof.
  apply (search_results_distinct Q row_similarity insertion_argsort
           insertion_argsort_sorts (two_docs_index (1 # 2) (3 # 4))
           [1 # 2; 3 # 4] "create a source" 3).
  - reflexivity.
  - reflexivity.
Defined.

Lemma search_on_built_index_returns_witness :
  exists results,
    search Q row_similarity insertion_argsort (two_docs_index (1 # 2) (3 # 4))
           "How do I create a source?" 3 = Ok results /\
    ((1 <= 3)%Z ->
     (Z.of_nat (List.length results) <= 3)%Z /\
     (List.length results
      <= List.length (documents (two_docs_index (1 # 2) (3 # 4))))%nat).
Proof.
  apply (search_on_built_index_returns Q (fit_rows [1 # 2; 3 # 4])
           row_similarity insertion_argsort insertion_argsort_sorts).
  - apply fit_rows_one_row_per_text.
  - apply two_docs_index_built.
  - discriminate.
Defined.

Lemma failed_load_keeps_documents_witness :
  let after := fst (load_documents Q fit_fails [doc_a] init) in
  snd (load_documents Q fit_fails [doc_a] init)
  = Raise (ValueError "empty vocabulary; perhaps the documents only contain stop words") /\
  documents after = [set_processed doc_a] /\
  tfidf_matrix after = None /\
  search Q row_similarity insertion_argsort after "create a source" 3
  = Raise (AttributeError "'NoneType' object has no attribute 'shape'").
Proof.
  destruct (failed_load_keeps_documents Q fit_fails row_similarity
              insertion_argsort [doc_a] init _ eq_refl) as [H1 [H2 [H3 H4]]].
  split; [exact H1|]. split; [exact H2|]. split; [exact H3|].
  apply H4. reflexivity.
Defined.

End IndexerMore.

(* ================================================================== *)
(** ** More on the classifier and the composer *)

Module ChatbotMore.
Import Str StrFacts ReFacts Indexer Chatbot Vocabulary Statements.
Import ClassifierFacts AnswerFacts.

(** *** [_truncate_question] *)

(** X11. Truncating a question of more than 500 characters keeps at most
    half of the question and 49 characters more, so what is kept is
    shorter than the question.  Both bounds come from the position of the
    cut in the question itself: past the middle less 50 at a marker, 300
    from the end otherwise. *)
Theorem truncate_question_length (question : string) :
  (500 < String.length question)%nat ->
  (String.length (truncate_question question)
   <= String.length question - String.length question / 2 + 49)%nat /\
  (String.length (truncate_question question) < String.length question)%nat.
Proof.
  intros Hlong.
  assert (Hhalf : (2 * (String.length question / 2) <= String.length question)%nat)
    by (apply Nat.Div0.mul_div_le).
  assert (Hhalf' : (String.length question < 2 * (String.length question / 2) + 2)%nat).
  { pose proof (Nat.div_mod_eq (String.length question) 2) as E.
    pose proof (Nat.mod_upper_bound (String.length question) 2). lia. }
  destruct (truncate_question_kept question)
    as [[marker [pos [Hin [Hpos [Hgt ->]]]]] | [-> _]].
  - rewrite length_drop. lia.
  - unfold last_chars. rewrite length_drop. lia.
Qed.

Lemma truncate_question_length_witness :
  (500 < String.length trailing_question)%nat /\
  (String.length (truncate_question trailing_question)
   <= String.length trailing_question - String.length trailing_question / 2 + 49)%nat /\
  (String.length (truncate_question trailing_question)
   < String.length trailing_question)%nat.
Proof.
  assert (Hlong : (500 < String.length trailing_question)%nat)
    by (apply Nat.ltb_lt; vm_compute; reflexivity).
  split; [exact Hlong|].
  exact (truncate_question_length trailing_question Hlong).
Defined.

(** *** [_is_cdp_related] *)

Lemma str_in_app_l (w s post : string) :
  str_in w s = true -> str_in w (s ++ post) = true.
Proof.
  intros H. destruct (str_in_split _ _ H) as [p [q ->]].
  rewrite !append_assoc. apply str_in_middle.
Qed.

Lemma mentions_around (w before question after : string) :
  mentions w question = true ->
  mentions w (before ++ question ++ after) = true.
Proof.
  unfold mentions. rewrite !lower_app. intros H.
  now apply str_in_app_r, str_in_app_l.
Qed.

Lemma is_cdp_related_grows (question question' : string) :
  (forall w, mentions w question = true -> mentions w question' = true) ->
  is_cdp_related question = true -> is_cdp_related question' = true.
Proof.
  intros Hw. unfold is_cdp_related.
  destruct (existsb (fun cdp => str_in cdp (lower question)) supported_cdps) eqn:E1.
  - intros _. now rewrite (existsb_mono _ (fun cdp => str_in cdp (lower question'))
                             _ Hw E1).
  - destruct (existsb (fun keyword => str_in keyword (lower question)) cdp_keywords)
      eqn:E2.
    + intros _. rewrite (existsb_mono _ (fun w => str_in w (lower question')) _ Hw E2).
      now destruct (existsb _ supported_cdps) in |- *.
    + intros E3.
      assert (G : existsb
                (fun pattern =>
                   str_in pattern (lower question') &&
                   existsb (fun verb => str_in verb (lower question')) action_verbs)
                how_to_patterns = true).
      { revert E3. apply existsb_mono. intros pattern H.
        apply andb_true_iff in H as [Hp Hv]. apply andb_true_iff. split.
        - now apply Hw.
        - revert Hv. apply existsb_mono. exact Hw. }
      rewrite G.
      destruct (existsb _ supported_cdps) in |- *; [reflexivity|].
      now destruct (existsb _ cdp_keywords) in |- *.
Qed.

(** X12. Domain relevance is never lost by adding text: a question that
    is CDP-related stays so with any text before it and after it. *)
Theorem is_cdp_related_with_context (before question after : string) :
  is_cdp_related question = true ->
  is_cdp_related (before ++ question ++ after) = true.
Proof.
  apply is_cdp_related_grows. intros w. apply mentions_around.
Qed.

Lemma is_cdp_related_with_context_witness :
  is_cdp_related ("Hello! " ++ "How do I add a webhook" ++ ", please?") = true.
Proof.
  apply is_cdp_related_with_context. reflexivity.
Defined.

(** *** [_identify_cdp] *)

Lemma segment_pattern_reads (pattern : Re.re) (question_lower : string) :
  In pattern segment_patterns ->
  Re.matches pattern question_lower = true ->
  str_in "segment" question_lower = true.
Proof.
  intros Hp Hm. apply matches_reads in Hm.
  assert (G : exists w, In w (literals pattern) /\ str_in "segment" w = true).
  { unfold segment_patterns in Hp. simpl in Hp.
    repeat destruct Hp as [<-|Hp]; try contradiction;
      simpl literals; pick_literal. }
  destruct G as [w [Hw Hin]].
  apply (str_in_trans "segment" w question_lower Hin).
  exact (proj1 (Forall_forall _ _) Hm w Hw).
Qed.

(** X13. An identified CDP is one of the four supported CDPs, its name
    occurs in the question (ignoring case), and the question is
    CDP-related: no CDP is identified that the question does not name. *)
Theorem identify_cdp_sound (question cdp : string) :
  identify_cdp question = Some cdp ->
  In cdp supported_cdps /\
  mentions cdp question = true /\
  is_cdp_related question = true.
Proof.
  intros H.
  assert (G : In cdp supported_cdps /\ mentions cdp question = true).
  { unfold identify_cdp in H. unfold mentions.
    destruct (has_segmentation_phrase (lower question)).
    - destruct (List.find (fun c => negb (c =? "segment") &&
                                    str_in c (lower question)) supported_cdps)
        as [c|] eqn:F.
      + injection H as ->. apply find_some in F as [Hin F].
        apply andb_true_iff in F as [_ F]. now split.
      + apply find_some in H as [Hin H]. split; [exact Hin|].
        destruct (cdp =? "segment"); [discriminate | exact H].
    - apply find_some in H as [Hin H]. split; [exact Hin|].
      destruct (cdp =? "segment") eqn:E; [|exact H].
      apply String.eqb_eq in E. subst cdp.
      apply existsb_exists in H as [pattern [Hp Hm]].
      eapply segment_pattern_reads; eassumption. }
  destruct G as [Hin Hm]. split; [exact Hin|]. split; [exact Hm|].
  unfold is_cdp_related.
  replace (existsb (fun c => str_in c (lower question)) supported_cdps) with true;
    [reflexivity|].
  symmetry. apply existsb_exists. exists cdp. now split.
Qed.

Lemma identify_cdp_sound_witness :
  In "zeotap" supported_cdps /\
  mentions "zeotap" "How can I integrate my data with Zeotap?" = true /\
  is_cdp_related "How can I integrate my data with Zeotap?" = true.
Proof.
  apply identify_cdp_sound. reflexivity.
Defined.

(** *** [_is_comparison_question] *)

(** X14. One of the explicit keywords "compare", "versus", "vs",
    "difference between" makes every question a comparison, a question
    with a segmentation phrase included: the keyword overrides the
    phrase, and the patterns and the count of CDPs are not consulted. *)
Theorem explicit_keyword_is_comparison (question keyword : string) :
  In keyword explicit_comparison_keywords ->
  mentions keyword question = true ->
  is_comparison_question question = true.
Proof.
  unfold mentions. intros Hin Hm. unfold is_comparison_question.
  assert (E : existsb (fun kw => str_in kw (lower question))
                      explicit_comparison_keywords = true).
  { apply existsb_exists. exists keyword. now split. }
  assert (G1 : existsb
                 (fun phrase =>
                    str_in phrase (lower question) &&
                    negb (existsb (fun kw => str_in kw (lower question))
                                  explicit_comparison_keywords))
                 non_comparison_phrases = false).
  { apply existsb_all_false. apply Forall_forall. intros phrase _.
    rewrite E. apply andb_false_r. }
  assert (G2 : existsb (fun kw => str_in kw (lower question))
                       comparison_keywords = true).
  { apply existsb_exists.
    unfold explicit_comparison_keywords in Hin. simpl in Hin.
    destruct Hin as [<-|[<-|[<-|[<-|[]]]]].
    - exists "compare". split; [simpl; auto | exact Hm].
    - exists "versus". split; [simpl; auto | exact Hm].
    - exists "vs". split; [simpl; auto | exact Hm].
    - exists "difference". split; [simpl; auto 10|].
      apply (str_in_trans _ "difference between"); [reflexivity | exact Hm]. }
  now rewrite G1, G2.
Qed.

Lemma explicit_keyword_is_comparison_witness :
  is_comparison_question
    "What is the difference between an audience segment and a user segment?"
  = true.
Proof.
  apply (explicit_keyword_is_comparison _ "difference between").
  - simpl. auto.
  - reflexivity.
Defined.

(** *** [_format_response] *)

Lemma length_take (n : nat) (s : string) : (String.length (take n s) <= n)%nat.
Proof.
  revert s. induction n as [|n IH]; intros [|c s]; simpl; try lia.
  specialize (IH s). lia.
Qed.

Lemma take_all (n : nat) (s : string) :
  (String.length s <= n)%nat -> take n s = s.
Proof.
  revert s. induction n as [|n IH]; intros [|c s]; simpl; intros H;
    try reflexivity; try lia.
  rewrite IH; [reflexivity | lia].
Qed.

Lemma find_at_none (i : nat) (sub s : string) :
  find_at i sub s = None -> str_in sub s = false.
Proof.
  revert i. induction s as [|c s IH]; intros i; cbn [find_at str_in].
  - now destruct (String.prefix sub "").
  - destruct (String.prefix sub (String c s)); [discriminate | apply IH].
Qed.

(** X15. The part of a document shown in an answer is the content itself
    when it has at most 800 characters; otherwise it is at most 800
    characters of the content, starting at the first step indicator found
    or at the beginning, followed by three dots. *)
Theorem shorten_content_bounded (content : string) :
  ((String.length content <= 800)%nat -> shorten_content content = content) /\
  ((800 < String.length content)%nat ->
   exists start body,
     shorten_content content = body ++ "..." /\
     body = slice start (start + 800) content /\
     (String.length body <= 800)%nat) /\
  (String.length (shorten_content content) <= 803)%nat.
Proof.
  assert (L : (800 < String.length content)%nat ->
              exists start body,
                shorten_content content = body ++ "..." /\
                body = slice start (start + 800) content /\
                (String.length body <= 800)%nat).
  { intros H. unfold shorten_content. apply Nat.ltb_lt in H. rewrite H.
    destruct (List.find _ step_indicators) as [indicator|] eqn:F.
    - apply find_some in F as [_ F].
      destruct (Str.find indicator content) as [pos|] eqn:P.
      + exists pos, (slice pos (pos + 800) content).
        split; [reflexivity|]. split; [reflexivity|].
        unfold slice. eapply Nat.le_trans; [apply length_take | lia].
      + apply find_at_none in P. congruence.
    - exists 0%nat, (take 800 content).
      split; [reflexivity|]. split; [reflexivity | apply length_take]. }
  split; [|split; [exact L|]].
  - intros H. unfold shorten_content.
    apply Nat.ltb_ge in H. now rewrite H.
  - destruct (Nat.le_gt_cases (String.length content) 800) as [H|H].
    + unfold shorten_content. apply Nat.ltb_ge in H as H'. rewrite H'. lia.
    + destruct (L H) as [start [body [-> [_ Hb]]]]. rewrite length_app. simpl. lia.
Qed.

Lemma shorten_content_bounded_witness :
  shorten_content "Step 1: open the dashboard." = "Step 1: open the dashboard." /\
  (exists start body,
      shorten_content (Str.repeat "x" 900) = body ++ "..." /\
      body = slice start (start + 800) (Str.repeat "x" 900) /\
      (String.length body <= 800)%nat) /\
  (String.length (shorten_content (Str.repeat "x" 900)) <= 803)%nat.
Proof.
  split.
  - apply (proj1 (shorten_content_bounded "Step 1: open the dashboard.")).
    apply Nat.leb_le. reflexivity.
  - split.
    + apply (proj1 (proj2 (shorten_content_bounded (Str.repeat "x" 900)))).
      apply Nat.ltb_lt. vm_compute. reflexivity.
    + apply (proj2 (proj2 (shorten_content_bounded (Str.repeat "x" 900)))).
Defined.

End ChatbotMore.

(* ================================================================== *)
(** ** More on comparisons and answers *)

Module AnswerMore.
Import Str StrFacts ReFacts Indexer Chatbot Vocabulary Statements.
Import ClassifierFacts AnswerFacts.

(** *** The compared CDPs *)

Lemma select_named_first_table (b1 b2 b3 b4 i1 i2 i3 i4 : bool) :
  (b1 = false -> i1 = false) -> (b2 = false -> i2 = false) ->
  (b3 = false -> i3 = false) -> (b4 = false -> i4 = false) ->
  select (table b1 b2 b3 b4) (table i1 i2 i3 i4)
  = firstn 2 (filter (table b1 b2 b3 b4) supported_cdps ++
              filter (fun cdp => negb (table b1 b2 b3 b4 cdp)) supported_cdps)%list.
Proof.
  intros H1 H2 H3 H4.
  destruct b1, b2, b3, b4;
    try rewrite (H1 eq_refl); try rewrite (H2 eq_refl);
    try rewrite (H3 eq_refl); try rewrite (H4 eq_refl);
    clear H1 H2 H3 H4; destruct i1, i2, i3, i4; vm_compute; reflexivity.
Qed.

Lemma named_first_table_shape (b1 b2 b3 b4 : bool) :
  exists c1 c2,
    firstn 2 (filter (table b1 b2 b3 b4) supported_cdps ++
              filter (fun cdp => negb (table b1 b2 b3 b4 cdp)) supported_cdps)%list
    = [c1; c2] /\
    c1 <> c2 /\ In c1 supported_cdps /\ In c2 supported_cdps.
Proof.
  destruct b1, b2, b3, b4; do 2 eexists;
    (split; [vm_compute; reflexivity|]);
    (split; [discriminate|]); simpl; auto 10.
Qed.

Lemma named_first_table (question : string) :
  named_first question
  = (filter (table (mentions "segment" question) (mentions "mparticle" question)
                   (mentions "lytics" question) (mentions "zeotap" question))
            supported_cdps ++
     filter (fun cdp =>
               negb (table (mentions "segment" question)
                           (mentions "mparticle" question)
                           (mentions "lytics" question)
                           (mentions "zeotap" question) cdp))
            supported_cdps)%list.
Proof.
  unfold named_first. f_equal; apply filter_ext_in; intros cdp H;
    unfold supported_cdps in H; simpl in H;
    repeat destruct H as [<-|H]; try reflexivity; contradiction.
Qed.

(** The compared CDPs are the first two of the CDPs with the named ones in
    front. *)
Lemma compared_cdps_named_first (question : string) :
  compared_cdps question = firstn 2 (named_first question).
Proof.
  rewrite compared_cdps_select, select_table, named_first_table.
  apply select_named_first_table; intros H;
    match goal with
    | |- inferred _ ?cdp = false =>
        exact (proj1 (Forall_forall _ _) (unnamed_not_inferred question) cdp
                 ltac:(simpl; auto 10) H)
    end.
Qed.

Lemma compared_cdps_shape (question : string) :
  exists c1 c2,
    compared_cdps question = [c1; c2] /\
    c1 <> c2 /\ In c1 supported_cdps /\ In c2 supported_cdps.
Proof.
  rewrite compared_cdps_named_first, named_first_table.
  apply named_first_table_shape.
Qed.

(** X16. The CDPs of a comparison are the first two of the supported CDPs
    taken with the ones the question names in front: the inference
    patterns never change the selection, since each of them contains the
    name of the CDP it would infer.  They are always two different
    supported CDPs. *)
Theorem compared_cdps_are_named_first (question : string) :
  compared_cdps question = firstn 2 (named_first question) /\
  exists c1 c2,
    compared_cdps question = [c1; c2] /\
    c1 <> c2 /\ In c1 supported_cdps /\ In c2 supported_cdps.
Proof.
  split; [apply compared_cdps_named_first | apply compared_cdps_shape].
Qed.

(** *** Queries and exceptions *)

(** X17. With an index that answers every query, a comparison sends
    exactly two queries, "<features> in <cdp>" for two different
    supported CDPs, and returns a text, whatever the question. *)
Theorem comparison_sends_two_queries
        (search : string -> result (list SearchResult)) (question : string) :
  answers search ->
  exists c1 c2 text,
    c1 <> c2 /\ In c1 supported_cdps /\ In c2 supported_cdps /\
    handle_comparison_question search question
    = ([extract_comparison_features question ++ " in " ++ c1;
        extract_comparison_features question ++ " in " ++ c2], Ok text).
Proof.
  intros Hs.
  destruct (compared_cdps_shape question) as [c1 [c2 [Hc [Hne [H1 H2]]]]].
  destruct (handle_comparison_answers search question Hs) as [text E].
  exists c1, c2, text. repeat split; auto.
  rewrite E. unfold comparison_queries. now rewrite Hc.
Qed.

Lemma comparison_sends_two_queries_witness :
  exists c1 c2 text,
    c1 <> c2 /\ In c1 supported_cdps /\ In c2 supported_cdps /\
    handle_comparison_question empty_search "Which CDP is better for pricing?"
    = (["pricing" ++ " in " ++ c1; "pricing" ++ " in " ++ c2], Ok text).
Proof.
  apply (comparison_sends_two_queries empty_search
           "Which CDP is better for pricing?").
  intros query. exists []. reflexivity.
Defined.

(** X18. A question that is not a comparison is always answered by a
    text, whatever the index does: nothing is sent when the question is
    not CDP-related, else the question itself (truncated when long) is
    the one query, and an exception of the index gives the apology. *)
Theorem single_question_always_answered
        (search : string -> result (list SearchResult)) (question : string) :
  is_comparison_question (effective question) = false ->
  exists text,
    answer_question search question
    = (if is_cdp_related (effective question) then [effective question] else [],
       Ok text) /\
    (is_cdp_related (effective question) = false -> text = refusal) /\
    (is_cdp_related (effective question) = true ->
     forall e, search (effective question) = Raise e -> text = apology).
Proof.
  intros Hc. unfold answer_question. fold (effective question).
  unfold respond. rewrite Hc.
  destruct (is_cdp_related (effective question)); cbn [negb].
  - unfold indexer_search, bind, try_except, ret.
    destruct (search (effective question)) as [[|r rs]|e]; eexists;
      (split; [reflexivity|]); (split; [discriminate|]); intros _ e';
      try discriminate; reflexivity.
  - exists refusal. split; [reflexivity|]. split; [reflexivity | discriminate].
Qed.

Lemma single_question_always_answered_witness :
  answer_question (fun _ => Raise (LibraryError "out of memory"))
                  "How do I set up a new source in Segment?"
  = (["How do I set up a new source in Segment?"], Ok apology).
Proof.
  destruct (single_question_always_answered
              (fun _ => Raise (LibraryError "out of memory"))
              "How do I set up a new source in Segment?" eq_refl)
    as [text [E [_ H]]].
  rewrite E. rewrite (H eq_refl _ eq_refl). reflexivity.
Defined.

(** X19. For every CDP-related comparison question, an exception that the
    index raises at the first query of the comparison leaves
    [answer_question]: that query is the only one sent, and no text is
    returned. *)
Theorem comparison_exception_propagates
        (search : string -> result (list SearchResult)) (question : string)
        (e : exn) :
  is_cdp_related (effective question) = true ->
  is_comparison_question (effective question) = true ->
  (forall cdp, search (extract_comparison_features (effective question)
                       ++ " in " ++ cdp) = Raise e) ->
  exists cdp,
    In cdp supported_cdps /\
    answer_question search question
    = ([extract_comparison_features (effective question) ++ " in " ++ cdp],
       Raise e).
Proof.
  intros Hr Hc Hs. unfold answer_question. fold (effective question).
  unfold respond. rewrite Hr, Hc. cbn [negb].
  unfold handle_comparison_question.
  destruct (compared_cdps_shape (effective question))
    as [c1 [c2 [Hcmp [_ [H1 _]]]]].
  rewrite Hcmp. exists c1. split; [exact H1|].
  cbn [best_matches]. unfold indexer_search. rewrite Hs. reflexivity.
Qed.

Lemma comparison_exception_propagates_witness :
  exists cdp,
    In cdp supported_cdps /\
    answer_question (fun _ => Raise (LibraryError "out of memory"))
                    "Is Lytics better than Zeotap for pricing?"
    = (["pricing" ++ " in " ++ cdp], Raise (LibraryError "out of memory")).
Proof.
  apply (comparison_exception_propagates
           (fun _ => Raise (LibraryError "out of memory"))
           "Is Lytics better than Zeotap for pricing?").
  - reflexivity.
  - reflexivity.
  - reflexivity.
Defined.

Lemma best_matches_sent (search : string -> result (list SearchResult))
      (comparison_features : string) (cdps : list string) :
  (List.length (fst (best_matches search comparison_features cdps))
   <= List.length cdps)%nat.
Proof.
  induction cdps as [|cdp rest IH]; cbn [best_matches].
  - simpl. lia.
  - unfold indexer_search, bind, ret.
    destruct (search (comparison_features ++ " in " ++ cdp)) as [results|e].
    + destruct (best_matches search comparison_features rest) as [sent [more|e]];
        cbn [fst app List.length] in *; rewrite ?app_nil_r;
        cbn [List.length]; lia.
    + cbn [fst List.length]. lia.
Qed.

(** X20. Answering a question sends at most two queries to the index,
    whatever the question and whatever the index does. *)
Theorem answer_sends_at_most_two_queries
        (search : string -> result (list SearchResult)) (question : string) :
  (List.length (fst (answer_question search question)) <= 2)%nat.
Proof.
  unfold answer_question. fold (effective question). unfold respond.
  destruct (is_cdp_related (effective question)); cbn [negb]; [|simpl; lia].
  destruct (is_comparison_question (effective question)).
  - unfold handle_comparison_question.
    pose proof (best_matches_sent search
                  (extract_comparison_features (effective question))
                  (compared_cdps (effective question))) as H.
    rewrite compared_cdps_two in H.
    destruct (best_matches search _ _) as [sent [[|r rs]|e]];
      unfold bind, ret; simpl in *; rewrite ?List.length_app; simpl; lia.
  - unfold indexer_search, bind, try_except, ret.
    destruct (search (effective question)) as [[|r rs]|e]; simpl; lia.
Qed.

(** *** [_generate_difference_point] *)

Lemma lookup_comparison_with (entries : list (string * string * string * string))
      (cdp1 cdp2 feature : string) :
  lookup_comparison entries cdp1 cdp2 feature
  = lookup_with (fun f => str_in f feature) entries cdp1 cdp2.
Proof.
  induction entries as [|[[[c1 c2] f] comparison] rest IH]; simpl.
  - reflexivity.
  - now rewrite IH.
Qed.

Lemma lookup_with_ext (test test' : string -> bool)
      (entries : list (string * string * string * string)) (cdp1 cdp2 : string) :
  Forall (fun entry =>
            let f := snd (fst entry) in
            test f || (f =? "general") || (f =? "features") || (f =? "capabilities")
            = test' f || (f =? "general") || (f =? "features") ||
              (f =? "capabilities"))
         entries ->
  lookup_with test entries cdp1 cdp2 = lookup_with test' entries cdp1 cdp2.
Proof.
  induction 1 as [|[[[c1 c2] f] comparison] rest Hf _ IH]; cbn [lookup_with].
  - reflexivity.
  - cbn [fst snd] in Hf. now rewrite Hf, IH.
Qed.

(** The table is looked up by three tests on the feature only. *)
Lemma lookup_comparison_table (t1 t2 cdp1 cdp2 feature : string) :
  lookup_comparison (comparisons t1 t2) cdp1 cdp2 feature
  = lookup_with (feature_table (str_in "audience" feature)
                               (str_in "integration" feature)
                               (str_in "identity" feature))
                (comparisons t1 t2) cdp1 cdp2.
Proof.
  rewrite lookup_comparison_with. apply lookup_with_ext.
  unfold comparisons.
  repeat (constructor;
          [cbn [fst snd]; unfold feature_table; cbn [String.eqb Ascii.eqb Bool.eqb];
           try reflexivity;
           match goal with
           | |- context [str_in ?f feature] => destruct (str_in f feature)
           end; reflexivity|]).
  constructor.
Qed.

(** X21. Where the table has a sentence for the two CDPs and the feature,
    the key difference does not depend on the order in which the CDPs are
    given: both orders produce that sentence, names included. *)
Theorem difference_point_symmetric (cdp1 cdp2 feature sentence : string) :
  In cdp1 supported_cdps -> In cdp2 supported_cdps ->
  lookup_comparison (comparisons (Str.title cdp1) (Str.title cdp2)) cdp1 cdp2 feature
  = Some sentence ->
  generate_difference_point cdp1 cdp2 feature = sentence /\
  generate_difference_point cdp2 cdp1 feature = sentence.
Proof.
  intros H1 H2 Hl. unfold generate_difference_point.
  rewrite Hl. split; [reflexivity|].
  rewrite lookup_comparison_table in *.
  unfold supported_cdps in H1, H2. simpl in H1, H2.
  destruct (str_in "audience" feature), (str_in "integration" feature),
           (str_in "identity" feature);
    repeat destruct H1 as [<-|H1]; try contradiction;
    repeat destruct H2 as [<-|H2]; try contradiction;
    vm_compute in Hl; try discriminate Hl;
    injection Hl as <-; vm_compute; reflexivity.
Qed.

Lemma difference_point_symmetric_witness :
  generate_difference_point "mparticle" "segment" "audience creation"
  = "Segment focuses on data collection and routing, while Mparticle has more advanced audience segmentation capabilities." /\
  generate_difference_point "segment" "mparticle" "audience creation"
  = "Segment focuses on data collection and routing, while Mparticle has more advanced audience segmentation capabilities.".
Proof.
  apply difference_point_symmetric.
  - simpl. auto.
  - simpl. auto.
  - reflexivity.
Defined.

(** X22. For Zeotap and mParticle, in either order, the key difference is
    the sentence of the table entry "general" for every feature: that
    entry is accepted whatever the feature, so the four entries of the
    pair that follow it (integration, identity, features, capabilities)
    are never used. *)
Theorem zeotap_mparticle_always_general (feature : string) :
  generate_difference_point "zeotap" "mparticle" feature
  = zeotap_mparticle_sentence /\
  generate_difference_point "mparticle" "zeotap" feature
  = zeotap_mparticle_sentence.
Proof.
  unfold generate_difference_point. rewrite !lookup_comparison_table.
  destruct (str_in "audience" feature), (str_in "integration" feature),
           (str_in "identity" feature);
    split; vm_compute; reflexivity.
Qed.

End AnswerMore.

(* ================================================================== *)
(** ** More on features, entities and comparison answers *)

Module ComposerMore.
Import Str StrFacts ReFacts Indexer Chatbot Vocabulary Statements.
Import ClassifierFacts AnswerFacts ChatbotMore AnswerMore.

(** *** [_extract_comparison_features] *)

Lemma append_nil_r (s : string) : s ++ "" = s.
Proof. induction s as [|c s IH]; simpl; congruence. Qed.

Lemma str_in_self (w : string) : str_in w w = true.
Proof.
  rewrite <- (append_nil_r w) at 2. apply str_in_here.
Qed.

Lemma str_in_join (sep w : string) (parts : list string) :
  In w parts -> str_in w (join sep parts) = true.
Proof.
  unfold join. induction parts as [|x parts IH]; intros H; [contradiction|].
  destruct parts as [|y parts].
  - destruct H as [<-|[]]. apply str_in_self.
  - change (String.concat sep (x :: y :: parts))
      with (x ++ sep ++ String.concat sep (y :: parts)).
    destruct H as [<-|H].
    + apply str_in_here.
    + apply str_in_app_r, str_in_app_r. now apply IH.
Qed.

(** X25. Every feature of the fixed list that the question mentions
    (ignoring case) is part of the extracted feature string, and so of
    each query that a comparison sends to the index. *)
Theorem mentioned_feature_is_extracted (question feature : string) :
  In feature features ->
  mentions feature question = true ->
  str_in feature (extract_comparison_features question) = true /\
  Forall (fun query => str_in feature query = true) (comparison_queries question).
Proof.
  unfold mentions. intros Hin Hm.
  assert (E : str_in feature (extract_comparison_features question) = true).
  { unfold extract_comparison_features.
    destruct (filter (fun f => str_in f (lower question)) features)
      as [|f found] eqn:F.
    - assert (H : In feature (filter (fun f => str_in f (lower question)) features))
        by (apply filter_In; now split).
      rewrite F in H. contradiction.
    - apply str_in_join. rewrite <- F. apply filter_In. now split. }
  split; [exact E|].
  unfold comparison_queries. apply Forall_forall. intros query H.
  apply in_map_iff in H as [cdp [<- _]]. now apply str_in_app_l.
Qed.

Lemma mentioned_feature_is_extracted_witness :
  str_in "pricing"
         (extract_comparison_features "Compare Pricing and Security of Lytics")
  = true /\
  Forall (fun query => str_in "pricing" query = true)
         (comparison_queries "Compare Pricing and Security of Lytics").
Proof.
  apply mentioned_feature_is_extracted.
  - simpl. auto 20.
  - reflexivity.
Defined.

(** *** [_identify_cdp] and [_is_comparison_question] *)

Lemma find_finds {A : Type} (f : A -> bool) (l : list A) (x : A) :
  In x l -> f x = true -> exists y, List.find f l = Some y.
Proof.
  intros Hin Hx. destruct (List.find f l) as [y|] eqn:E; [eauto|].
  apply find_none_all_false in E.
  rewrite (proj1 (Forall_forall _ _) E x Hin) in Hx. discriminate.
Qed.

(** X26. A question that names mParticle, Lytics or Zeotap (ignoring
    case) always gets a CDP identified, with or without a segmentation
    phrase. *)
Theorem identify_cdp_finds_named (question cdp : string) :
  In cdp ["mparticle"; "lytics"; "zeotap"] ->
  mentions cdp question = true ->
  exists identified, identify_cdp question = Some identified.
Proof.
  unfold mentions. intros Hin Hm.
  assert (Hs : In cdp supported_cdps) by (simpl in *; tauto).
  assert (Hne : (cdp =? "segment") = false)
    by (simpl in Hin; repeat destruct Hin as [<-|Hin]; try reflexivity;
        contradiction).
  unfold identify_cdp.
  destruct (has_segmentation_phrase (lower question)).
  - destruct (find_finds (fun c => negb (c =? "segment") && str_in c (lower question))
                supported_cdps cdp Hs) as [y ->]; [|eauto].
    now rewrite Hne, Hm.
  - apply (find_finds _ supported_cdps cdp Hs). now rewrite Hne.
Qed.

Lemma identify_cdp_finds_named_witness :
  exists identified,
    identify_cdp "How do I build an audience segment in Lytics?" = Some identified.
Proof.
  apply (identify_cdp_finds_named _ "lytics").
  - simpl. auto.
  - reflexivity.
Defined.

(** X27. Without a segmentation phrase, a question that names two
    different CDPs among mParticle, Lytics and Zeotap is a comparison,
    with or without a comparison keyword. *)
Theorem two_named_cdps_is_comparison (question cdp1 cdp2 : string) :
  has_segmentation_phrase (lower question) = false ->
  In cdp1 ["mparticle"; "lytics"; "zeotap"] ->
  In cdp2 ["mparticle"; "lytics"; "zeotap"] ->
  cdp1 <> cdp2 ->
  mentions cdp1 question = true ->
  mentions cdp2 question = true ->
  is_comparison_question question = true.
Proof.
  unfold mentions. intros Hp H1 H2 Hne M1 M2. unfold is_comparison_question.
  assert (G : existsb
                (fun phrase =>
                   str_in phrase (lower question) &&
                   negb (existsb (fun kw => str_in kw (lower question))
                                 explicit_comparison_keywords))
                non_comparison_phrases = false).
  { apply existsb_all_false. apply Forall_forall. intros phrase Hin.
    apply all_false_of_existsb in Hp.
    now rewrite (proj1 (Forall_forall _ _) Hp phrase Hin). }
  rewrite G.
  destruct (existsb _ comparison_keywords); [reflexivity|].
  destruct (existsb _ comparison_patterns); [reflexivity|].
  unfold supported_cdps. cbn [filter String.eqb Ascii.eqb Bool.eqb].
  simpl in H1, H2.
  destruct (existsb _ segment_patterns);
    repeat destruct H1 as [<-|H1]; try contradiction;
    repeat destruct H2 as [<-|H2]; try contradiction;
    try congruence;
    rewrite M1, M2;
    repeat match goal with
           | |- context [str_in ?c (lower question)] =>
               destruct (str_in c (lower question))
           end; reflexivity.
Qed.

Lemma two_named_cdps_is_comparison_witness :
  is_comparison_question "Should I use Lytics or Zeotap for my webhooks?" = true.
Proof.
  apply (two_named_cdps_is_comparison _ "lytics" "zeotap").
  - reflexivity.
  - simpl. auto.
  - simpl. auto.
  - discriminate.
  - reflexivity.
  - reflexivity.
Defined.

(** *** Comparisons with missing matches *)

(** X28. When the index finds nothing for either CDP of a comparison, the
    answer is the message that there is not enough information, naming
    the two CDPs and the features; both queries were sent. *)
Theorem comparison_without_matches
        (search : string -> result (list SearchResult)) (question : string) :
  (forall query, search query = Ok []) ->
  exists c1 c2,
    compared_cdps question = [c1; c2] /\
    handle_comparison_question search question
    = ([extract_comparison_features question ++ " in " ++ c1;
        extract_comparison_features question ++ " in " ++ c2],
       Ok ("I don't have enough information to compare "
           ++ (c1 ++ " and " ++ c2) ++ " regarding " ++ extract_comparison_features question
           ++ ". Could you please ask a more specific question?")).
Proof.
  intros Hs.
  destruct (compared_cdps_shape question) as [c1 [c2 [Hc _]]].
  exists c1, c2. split; [exact Hc|].
  unfold handle_comparison_question. rewrite Hc.
  cbn [best_matches]. unfold indexer_search, bind, ret. rewrite !Hs.
  reflexivity.
Qed.

Lemma comparison_without_matches_witness :
  exists c1 c2,
    compared_cdps "Lytics vs Zeotap pricing" = [c1; c2] /\
    handle_comparison_question empty_search "Lytics vs Zeotap pricing"
    = (["pricing" ++ " in " ++ c1; "pricing" ++ " in " ++ c2],
       Ok ("I don't have enough information to compare "
           ++ (c1 ++ " and " ++ c2) ++ " regarding " ++ "pricing"
           ++ ". Could you please ask a more specific question?")).
Proof.
  apply (comparison_without_matches empty_search "Lytics vs Zeotap pricing").
  reflexivity.
Defined.

(** X9. When the index finds a document for the first CDP of a
    comparison only, the answer has the block of that CDP and an empty
    "Key Differences" section: the heading is followed by the closing
    note, with no difference between the two CDPs stated. *)
Theorem comparison_with_one_match
        (search : string -> result (list SearchResult)) (question : string)
        (c1 c2 : string) (best : SearchResult) (others : list SearchResult) :
  compared_cdps question = [c1; c2] ->
  search (extract_comparison_features question ++ " in " ++ c1)
  = Ok (best :: others) ->
  search (extract_comparison_features question ++ " in " ++ c2) = Ok [] ->
  handle_comparison_question search question
  = ([extract_comparison_features question ++ " in " ++ c1;
      extract_comparison_features question ++ " in " ++ c2],
     Ok ("Here's a comparison of " ++ extract_comparison_features question
         ++ " between " ++ (c1 ++ " and " ++ c2) ++ ":" ++ nl ++ nl
         ++ comparison_block (extract_comparison_features question) (c1, best)
         ++ "**Key Differences**:" ++ nl ++ nl ++ comparison_note)).
Proof.
  intros Hc H1 H2. unfold handle_comparison_question. rewrite Hc.
  cbn [best_matches]. unfold indexer_search, bind, ret. rewrite H1, H2.
  cbn [app fold_left]. unfold comparison_note, join. cbn [String.concat].
  f_equal. f_equal. rewrite !append_assoc. reflexivity.
Qed.

Lemma comparison_with_one_match_witness :
  handle_comparison_question segment_only_search "Segment vs Lytics pricing"
  = (["pricing in segment"; "pricing in lytics"],
     Ok ("Here's a comparison of " ++ "pricing"
         ++ " between " ++ ("segment" ++ " and " ++ "lytics") ++ ":" ++ nl ++ nl
         ++ comparison_block "pricing" ("segment", mkResult doc_a (1 # 2))
         ++ "**Key Differences**:" ++ nl ++ nl ++ comparison_note)).
Proof.
  apply (comparison_with_one_match segment_only_search
           "Segment vs Lytics pricing" "segment" "lytics"
           (mkResult doc_a (1 # 2)) []); reflexivity.
Defined.

End ComposerMore.

(* ================================================================== *)
(** ** The chatbot over its index, the API and the command line *)

Module ServiceMore.
Import Str StrFacts Indexer Chatbot Service Vocabulary Statements.
Import ClassifierFacts AnswerFacts IndexerFacts IndexerMore.

Section Service.
Variable row : Type.
Variable fit_transform : list string -> result (list row).
Variable similarity : string -> row -> Q.
Variable argsort : list Q -> list nat.

Lemma new_chatbot_built (loaded : list Document) (indexer : DocumentIndexer row) :
  new_chatbot row fit_transform loaded = Ok indexer ->
  built row fit_transform indexer /\
  documents indexer = map (set_processed) loaded.
Proof.
  unfold new_chatbot, built. intros H.
  destruct (load_documents row fit_transform loaded init) as [self [[]|e]] eqn:E;
    [|discriminate].
  injection H as <-. split; [now exists loaded|].
  unfold load_documents in E.
  destruct (fit_transform _); [|discriminate]. now injection E as <-.
Qed.

(** X23. A chatbot that was constructed over a corpus that is not empty
    (one matrix row per text, an [np.argsort] that sorts) answers every
    question with a text, comparisons included: [answer_question] raises
    nothing, the API responds and never raises its HTTP 500, and the
    command line shows an answer and never an error. *)
Theorem constructed_chatbot_always_answers
        (loaded : list Document) (indexer : DocumentIndexer row)
        (question : string) :
  sorts argsort ->
  one_row_per_text fit_transform ->
  loaded <> [] ->
  new_chatbot row fit_transform loaded = Ok indexer ->
  exists sent text,
    chatbot_answer row similarity argsort indexer question = (sent, Ok text) /\
    ask_question row similarity argsort indexer question = Response text /\
    reply_to row similarity argsort indexer question = Answered text.
Proof.
  intros Hsorts Hfit Hne Hnew.
  destruct (new_chatbot_built loaded indexer Hnew) as [Hbuilt Hdocs].
  assert (Hans : answers (search_top3 row similarity argsort indexer)).
  { intros query. unfold search_top3.
    apply (built_index_answers row fit_transform similarity argsort Hsorts);
      [exact Hfit | exact Hbuilt |].
    rewrite Hdocs. destruct loaded; [congruence | discriminate]. }
  assert (G : exists sent text,
             chatbot_answer row similarity argsort indexer question
             = (sent, Ok text)).
  { unfold chatbot_answer, answer_question. fold (effective question).
    unfold respond.
    destruct (is_cdp_related (effective question)); cbn [negb].
    - destruct (is_comparison_question (effective question)).
      + destruct (handle_comparison_answers _ (effective question) Hans)
          as [text E]. rewrite E. eauto.
      + unfold indexer_search, bind, try_except, ret.
        destruct (Hans (effective question)) as [[|r rs] E]; rewrite E; eauto.
    - unfold ret. eauto. }
  destruct G as [sent [text E]]. exists sent, text.
  split; [exact E|]. unfold ask_question, reply_to. now rewrite E.
Qed.

(** X24. A session of the command line answers the lines typed before the
    first exit word, one reply per line and in order, and says goodbye at
    that word; what is typed after it is never read.  An exit word counts
    in any case of its letters.  Without an exit word every line is
    answered and the session ends when the input does. *)
Theorem session_ends_at_exit_word
        (indexer : DocumentIndexer row) (before after : list string)
        (word : string) :
  Forall (fun line => Str.mem (lower line) exit_words = false) before ->
  Str.mem (lower word) exit_words = true ->
  session row similarity argsort indexer (before ++ word :: after)
  = (map (reply_to row similarity argsort indexer) before, Goodbye) /\
  session row similarity argsort indexer before
  = (map (reply_to row similarity argsort indexer) before, EndOfInput).
Proof.
  intros Hb Hw. induction Hb as [|line before Hline _ [IH1 IH2]];
    cbn [session app map].
  - rewrite Hw. split; reflexivity.
  - rewrite Hline, IH1, IH2. split; reflexivity.
Qed.

End Service.

Lemma constructed_chatbot_always_answers_witness :
  exists sent text,
    chatbot_answer Q row_similarity insertion_argsort
                   (two_docs_index (1 # 2) (3 # 4))
                   "Segment vs mParticle for data collection"
    = (sent, Ok text) /\
    ask_question Q row_similarity insertion_argsort
                 (two_docs_index (1 # 2) (3 # 4))
                 "Segment vs mParticle for data collection"
    = Response text /\
    reply_to Q row_similarity insertion_argsort
             (two_docs_index (1 # 2) (3 # 4))
             "Segment vs mParticle for data collection"
    = Answered text.
Proof.
  apply (constructed_chatbot_always_answers Q (fit_rows [1 # 2; 3 # 4])
           row_similarity insertion_argsort [doc_a; doc_b]).
  - exact insertion_argsort_sorts.
  - apply fit_rows_one_row_per_text.
  - discriminate.
  - reflexivity.
Defined.

Lemma session_ends_at_exit_word_witness :
  let indexer := two_docs_index (1 # 2) (3 # 4) in
  session Q row_similarity insertion_argsort indexer
          ["What is the weather?"; "QUIT"; "How do I create a source?"]
  = ([reply_to Q row_similarity insertion_argsort indexer "What is the weather?"],
     Goodbye) /\
  session Q row_similarity insertion_argsort indexer ["What is the weather?"]
  = ([reply_to Q row_similarity insertion_argsort indexer "What is the weather?"],
     EndOfInput).
Proof.
  apply (session_ends_at_exit_word Q row_similarity insertion_argsort
           (two_docs_index (1 # 2) (3 # 4)) ["What is the weather?"] 
           ["How do I create a source?"] "QUIT").
  - repeat constructor.
  - reflexivity.
Defined.

End ServiceMore.
